(** * Peak finder: the hill-climbing goal controller

    A shallow embedding of [peak_finder::PeakFinderComponent]
    (peak_finder/src/peak_finder_component.cpp): the action callback
    [execute], its helpers [GetRobotPosition] and [SampleElevation], and the
    standard algorithms they call ([std::generate_n], [std::max_element]).

    - A C++ [double] is an IEEE 754 binary64 value: [spec_float] of the
      Standard Library with precision 53 and maximal exponent 1024.  The
      comparisons [<] and [<=] are [SFltb] and [SFleb] (both false on NaN).
    - The node talks to four collaborators: the elevation service client, the
      TF buffer, the navigator and the action goal handle.  Every call is
      recorded, in program order, in a list of [event]s; the answers come from
      an environment [Env] that maps the number of answers already given (the
      [clock]) to the next answer.  Quantifying over [Env] covers every
      behaviour of the collaborators.
    - [tf_buffer_.lookupTransform] is the one call that can throw (the
      [try] block of [execute] exists for it); every other call returns.
      The calls of [RCLCPP_INFO] and [RCLCPP_ERROR] are left out.
    - The three [while] loops take a [fuel] bound on their iterations; a run
      that exhausts it ends in [NoFuel].  One round of a waiting loop, a
      [wait_for] or [wait_for_completion] of 100 ms, is one answered call.

    The development has four parts: the definitions (the program, the
    protocol of its calls, the readings of a trace, the scenarios, and
    [main] of hardware_applications/week3/final_main.cpp in the module
    [FinalMain]), the lemmas, the claims about the program, C1 to C10, and
    further properties of the code, X1 to X17. *)

From Stdlib Require Import ZArith PArith List Bool Arith Lia SpecFloat.
From Stdlib Require String.
Import ListNotations String.StringSyntax.
Delimit Scope string_scope with string.

Set Implicit Arguments.

(** ** Doubles *)

Definition double : Type := spec_float.

Definition prec : Z := 53.
Definition emax : Z := 1024.

Definition dadd : double -> double -> double := SFadd prec emax.
Definition dmul : double -> double -> double := SFmul prec emax.

(** The literal [0.0]. *)
Definition dzero : double := S754_zero false.

(** The integer [n] as a double, as a C++ conversion computes it. *)
Definition double_of_nat (n : nat) : double :=
  binary_normalize prec emax (Z.of_nat n) 0 false.

(** [M_PI_4] of <cmath>: 0x1.921fb54442d18p-1, the double nearest to pi/4. *)
Definition M_PI_4 : double := S754_finite false 7074237752028440 (-53).

(** [look_distance = 0.1]: 0x1.999999999999ap-4, the double nearest to 1/10. *)
Definition look_distance : double := S754_finite false 7205759403792794 (-56).

(** ** Eigen::Vector2d, with the two operations [execute] uses *)

Record Vector2d : Type := { vx : double; vy : double }.

(** [scalar * vector]. *)
Definition vscale (k : double) (v : Vector2d) : Vector2d :=
  {| vx := dmul k (vx v); vy := dmul k (vy v) |}.

(** [vector + vector]. *)
Definition vadd (u v : Vector2d) : Vector2d :=
  {| vx := dadd (vx u) (vx v); vy := dadd (vy u) (vy v) |}.

(** ** Messages *)

(** stsl_interfaces::srv::SampleElevation::Response. *)
Record Response : Type := { success : bool; elevation : double }.

(** geometry_msgs::msg::PoseStamped, as far as [execute] fills it in (the
    orientation is left at its default). *)
Record PoseStamped : Type := {
  frame_id : String.string;
  stamp : Z;
  position_x : double;
  position_y : double;
  position_z : double
}.

(** ** Standard algorithms *)

(** [std::generate_n(std::back_inserter(v), n, gen)] for a generator that
    carries a state [S] (the captures of a mutable lambda). *)
Fixpoint generate_n (S A : Type) (n : nat) (gen : S -> A * S) (s : S) : list A :=
  match n with
  | O => []
  | Datatypes.S n' => let (a, s') := gen s in a :: generate_n n' gen s'
  end.

(** The loop of [std::max_element(first, last)]: [largest] is the index of
    the candidate, [best] its value, [i] the index of the head of [l]. *)
Fixpoint max_element_from (largest : nat) (best : double) (i : nat)
    (l : list double) : nat :=
  match l with
  | [] => largest
  | e :: l' =>
      if SFltb best e then max_element_from i e (S i) l'
      else max_element_from largest best (S i) l'
  end.

(** [std::max_element] as the distance of the returned iterator from
    [begin()]; [None] is the past-the-end iterator of an empty range. *)
Definition max_element (l : list double) : option nat :=
  match l with
  | [] => None
  | e :: l' => Some (max_element_from 0 e 1 l')
  end.

(** ** The ring of sample positions (lines 123-133) *)

(** The angle of the [i]-th ring position: [i * M_PI_4]. *)
Definition ring_angle (i : nat) : double := dmul (double_of_nat i) M_PI_4.

Section Ring.

(** [std::cos] and [std::sin] of the C library. *)
Variables cos sin : double -> double.

(** The lambda [generate_next_pose]; its mutable capture [angle] is the
    state. *)
Definition generate_next_pose (robot_position : Vector2d) (angle : double)
    : Vector2d * double :=
  let pose :=
    vadd (vscale look_distance {| vx := cos angle; vy := sin angle |})
         robot_position in
  (pose, dadd angle M_PI_4).

Definition sample_positions (robot_position : Vector2d) : list Vector2d :=
  generate_n 8 (generate_next_pose robot_position) dzero.

(** The point at distance [look_distance] from [robot_position] in the
    direction [angle]. *)
Definition at_angle (robot_position : Vector2d) (angle : double) : Vector2d :=
  vadd (vscale look_distance {| vx := cos angle; vy := sin angle |})
       robot_position.

(** The [i]-th ring position: at angle [i * M_PI_4]. *)
Definition ring_position (robot_position : Vector2d) (i : nat) : Vector2d :=
  at_angle robot_position (ring_angle i).

End Ring.

(** ** Calls and their answers *)

(** One constructor per call [execute] and [SampleElevation] make on a
    collaborator; the arguments are what was passed and what came back. *)
Inductive event : Type :=
| ServiceIsReady (ready : bool)           (* elevation_client_->service_is_ready() *)
| CanTransform (can : bool)               (* tf_buffer_.canTransform(...) *)
| ServerAvailable (available : bool)      (* navigator_.server_available() *)
| RclcppOk (running : bool)               (* rclcpp::ok() *)
| IsCanceling (canceling : bool)          (* goal_handle->is_canceling() *)
| LookupTransform (found : option Vector2d) (* tf_buffer_.lookupTransform(...) *)
| AsyncSendRequest (x y : double)         (* elevation_client_->async_send_request *)
| WaitFor (ready : bool)                  (* result_future.wait_for(100ms) == ready *)
| FutureGet (response : Response)         (* result_future.get() *)
| Now (time : Z)                          (* now() *)
| GoToPose (goal_pose : PoseStamped) (accepted : bool) (* navigator_.go_to_pose *)
| WaitForCompletion (finished : bool)     (* navigator_.wait_for_completion(100ms) *)
| NavigatorCancel                         (* navigator_.cancel() *)
| NavigatorSucceeded (ok : bool)          (* navigator_.succeeded() *)
| GoalAbort                               (* goal_handle->abort(...) *)
| GoalSucceed                             (* goal_handle->succeed(...) *)
| GoalCanceled.                           (* goal_handle->canceled(...) *)

(** The collaborators: the answer each call gets when it is the [n]-th
    answered call of the run.  [tf_lookupTransform] answers [None] when the
    lookup throws. *)
Record Env : Type := {
  elevation_service_is_ready : nat -> bool;
  tf_canTransform : nat -> bool;
  navigator_server_available : nat -> bool;
  rclcpp_ok : nat -> bool;
  goal_is_canceling : nat -> bool;
  tf_lookupTransform : nat -> option Vector2d;
  future_wait_for : nat -> bool;
  future_get : nat -> Response;
  node_now : nat -> Z;
  navigator_go_to_pose : nat -> bool;
  navigator_wait_for_completion : nat -> bool;
  navigator_succeeded : nat -> bool
}.

(** ** The monad of the node's code *)

Inductive outcome (A : Type) : Type :=
| Val (a : A)      (* returns [a] *)
| Exn              (* a std::exception propagates *)
| NoFuel           (* a loop ran out of fuel *)
| Fault.           (* undefined behaviour *)

Arguments Exn {A}.
Arguments NoFuel {A}.
Arguments Fault {A}.

Record Out (A : Type) : Type := {
  result : outcome A;
  clock : nat;
  events : list event
}.

Definition M (A : Type) : Type := Env -> nat -> Out A.

Definition ret (A : Type) (a : A) : M A :=
  fun _ t => {| result := Val a; clock := t; events := [] |}.

Definition stop (A B : Type) (r : outcome B) (o : Out A) : Out B :=
  {| result := r; clock := clock o; events := events o |}.

Definition bind (A B : Type) (m : M A) (k : A -> M B) : M B :=
  fun env t =>
    let o := m env t in
    match result o with
    | Val a =>
        let o' := k a env (clock o) in
        {| result := result o'; clock := clock o';
           events := events o ++ events o' |}
    | Exn => stop Exn o
    | NoFuel => stop NoFuel o
    | Fault => stop Fault o
    end.

Declare Scope node_scope.
Delimit Scope node_scope with node.
Notation "x <- m ;; k" := (bind m (fun x => k))
  (at level 61, m at next level, right associativity) : node_scope.
Notation "m ;; k" := (bind m (fun _ => k))
  (at level 61, right associativity) : node_scope.
Open Scope node_scope.

(** A call that is answered by the environment. *)
Definition ask (A : Type) (answer : Env -> nat -> A) (call : A -> event) : M A :=
  fun env t =>
    {| result := Val (answer env t); clock := S t;
       events := [call (answer env t)] |}.

(** A call that returns nothing. *)
Definition emit (e : event) : M unit :=
  fun _ t => {| result := Val tt; clock := t; events := [e] |}.

Definition throw {A : Type} : M A :=
  fun _ t => {| result := Exn; clock := t; events := [] |}.

Definition out_of_fuel {A : Type} : M A :=
  fun _ t => {| result := NoFuel; clock := t; events := [] |}.

Definition fault {A : Type} : M A :=
  fun _ t => {| result := Fault; clock := t; events := [] |}.

(** [try { m } catch (const std::exception&) { handler }]. *)
Definition try_catch (A : Type) (m handler : M A) : M A :=
  fun env t =>
    let o := m env t in
    match result o with
    | Exn =>
        let o' := handler env (clock o) in
        {| result := result o'; clock := clock o';
           events := events o ++ events o' |}
    | _ => o
    end.

(** How a loop body ends: it falls through to the loop test, or it executes
    [return]. *)
Inductive flow : Type := Continue | Return.

(** ** The node *)

(** [!rclcpp::ok() || goal_handle->is_canceling()], with the short circuit. *)
Definition shutdown_or_canceling : M bool :=
  running <- ask rclcpp_ok RclcppOk ;;
  if negb running then ret true
  else ask goal_is_canceling IsCanceling.

(** [rclcpp::ok() && !goal_handle->is_canceling()], with the short circuit. *)
Definition running_and_not_canceling : M bool :=
  running <- ask rclcpp_ok RclcppOk ;;
  if running then
    canceling <- ask goal_is_canceling IsCanceling ;;
    ret (negb canceling)
  else ret false.

(** Lines 213-219.  [lookupTransform] throws when the transform is not
    available. *)
Definition GetRobotPosition : M Vector2d :=
  found <- ask tf_lookupTransform LookupTransform ;;
  match found with
  | Some robot_position => ret robot_position
  | None => throw
  end.

(** Lines 239-246, the wait for the response: [true] when the future is
    ready, [false] when the loop reported [canceled] and [SampleElevation]
    is to return false. *)
Fixpoint wait_for_response (fuel : nat) : M bool :=
  match fuel with
  | O => out_of_fuel
  | S fuel' =>
      ready <- ask future_wait_for WaitFor ;;
      if ready then ret true
      else
        quit <- shutdown_or_canceling ;;
        if quit then emit GoalCanceled ;; ret false
        else wait_for_response fuel'
  end.

(** Lines 221-259.  [Some e] is "returns true with [elevation = e]", [None]
    is "returns false". *)
Definition SampleElevation (fuel : nat) (position : Vector2d) : M (option double) :=
  emit (AsyncSendRequest (vx position) (vy position)) ;;
  ready <- wait_for_response fuel ;;
  if ready then
    response <- ask future_get FutureGet ;;
    if negb (success response) then emit GoalAbort ;; ret None
    else ret (Some (elevation response))
  else ret None.

(** Lines 138-145, the loop over [sample_positions]: [None] when a sample
    failed and [execute] is to return. *)
Fixpoint sample_ring (fuel : nat) (positions : list Vector2d)
    (elevations : list double) : M (option (list double)) :=
  match positions with
  | [] => ret (Some elevations)
  | position :: rest =>
      sampled <- SampleElevation fuel position ;;
      match sampled with
      | None => ret None
      | Some elevation => sample_ring fuel rest (elevations ++ [elevation])
      end
  end.

(** Lines 187-195, the wait for the navigator: [true] when the navigation
    finished, [false] when the loop reported [canceled] and [execute] is to
    return. *)
Fixpoint wait_for_navigation (fuel : nat) : M bool :=
  match fuel with
  | O => out_of_fuel
  | S fuel' =>
      finished <- ask navigator_wait_for_completion WaitForCompletion ;;
      if finished then ret true
      else
        quit <- shutdown_or_canceling ;;
        if quit then emit NavigatorCancel ;; emit GoalCanceled ;; ret false
        else wait_for_navigation fuel'
  end.

Section Node.

Variables cos sin : double -> double.

(** Lines 113-145 of the loop body: the elevation at the robot position, the
    ring and its elevations.  [None] when a sample failed. *)
Definition sample_around (fuel : nat) (robot_position : Vector2d)
    : M (option (list Vector2d * double * list double)) :=
  sampled <- SampleElevation fuel robot_position ;;
  match sampled with
  | None => ret None
  | Some current_elevation =>
      let positions := sample_positions cos sin robot_position in
      ring <- sample_ring fuel positions [] ;;
      match ring with
      | None => ret None
      | Some elevations => ret (Some (positions, current_elevation, elevations))
      end
  end.

(** Lines 110-145 of the loop body: the robot position and the samples
    around it. *)
Definition sample_surroundings (fuel : nat)
    : M (option (list Vector2d * double * list double)) :=
  robot_position <- GetRobotPosition ;;
  sample_around fuel robot_position.

(** Lines 170-175: the goal pose at [goal_position], stamped [time]. *)
Definition pose_at (time : Z) (goal_position : Vector2d) : PoseStamped :=
  {| frame_id := "map"%string; stamp := time;
     position_x := vx goal_position;
     position_y := vy goal_position;
     position_z := dzero |}.

(** Lines 155-202 of the loop body: the decision and the navigation. *)
Definition decide_and_navigate (fuel : nat) (positions : list Vector2d)
    (current_elevation : double) (elevations : list double) : M flow :=
  match max_element elevations with
  | None => fault
  | Some max_index =>
      match nth_error elevations max_index with
      | None => fault
      | Some max_elevation =>
          if SFleb max_elevation current_elevation then
            emit GoalSucceed ;; ret Return
          else
            match nth_error positions max_index with
            | None => fault
            | Some goal_position =>
                time <- ask node_now Now ;;
                let goal_pose := pose_at time goal_position in
                accepted <- ask navigator_go_to_pose (GoToPose goal_pose) ;;
                if negb accepted then emit GoalAbort ;; ret Return
                else
                  finished <- wait_for_navigation fuel ;;
                  if finished then
                    ok <- ask navigator_succeeded NavigatorSucceeded ;;
                    if negb ok then emit GoalAbort ;; ret Return
                    else ret Continue
                  else ret Return
            end
      end
  end.

(** Lines 110-202, one iteration of the search loop. *)
Definition loop_body (fuel : nat) : M flow :=
  surroundings <- sample_surroundings fuel ;;
  match surroundings with
  | None => ret Return
  | Some (positions, current_elevation, elevations) =>
      decide_and_navigate fuel positions current_elevation elevations
  end.

(** Lines 108-204: the search loop and the [canceled] that follows it. *)
Fixpoint search_loop (fuel : nat) : M unit :=
  match fuel with
  | O => out_of_fuel
  | S fuel' =>
      go_on <- running_and_not_canceling ;;
      if go_on then
        how <- loop_body fuel' ;;
        match how with
        | Return => ret tt
        | Continue => search_loop fuel'
        end
      else emit GoalCanceled
  end.

(** Lines 79-211. *)
Definition execute (fuel : nat) : M unit :=
  ready <- ask elevation_service_is_ready ServiceIsReady ;;
  if negb ready then emit GoalAbort
  else
    can <- ask tf_canTransform CanTransform ;;
    if negb can then emit GoalAbort
    else
      available <- ask navigator_server_available ServerAvailable ;;
      if negb available then emit GoalAbort
      else try_catch (search_loop fuel) (emit GoalAbort).

End Node.

(** ** The goal protocol

    The order in which [execute] makes its calls, as an automaton over
    [event]s: a [phase] is a program point, [step] the calls that may come
    next there.  [protocol_execute] below shows that every run follows it. *)

Inductive phase : Type :=
| PStart            (* entry of execute *)
| PReady            (* the elevation service is ready *)
| PTransformable    (* the robot position can be looked up *)
| PLoopTop          (* at the test of the search loop *)
| PLoopTopOk        (* rclcpp::ok() held at the test of the search loop *)
| PLookup           (* entry of the loop body *)
| PRequest          (* the robot position is known *)
| PWait             (* at the test of the wait for a sample response *)
| PWaitTimedOut     (* wait_for timed out *)
| PWaitOk           (* rclcpp::ok() held after the time-out *)
| PGet              (* the future is ready *)
| PSampled          (* a sample succeeded *)
| PStamped          (* the goal pose is being filled in *)
| PPoll             (* at the test of the wait for the navigator *)
| PPollPending      (* wait_for_completion timed out *)
| PPollOk           (* rclcpp::ok() held after the time-out *)
| PNavDone          (* the navigation finished *)
| PMustNavCancel    (* navigator_.cancel() is due *)
| PMustCanceled     (* goal_handle->canceled is due *)
| PMustAbort        (* goal_handle->abort is due *)
| PDone.            (* the outcome is reported *)

Definition step (q : phase) (e : event) : option phase :=
  match q, e with
  | PStart, ServiceIsReady b => Some (if b then PReady else PMustAbort)
  | PReady, CanTransform b => Some (if b then PTransformable else PMustAbort)
  | PTransformable, ServerAvailable b => Some (if b then PLoopTop else PMustAbort)
  | PLoopTop, RclcppOk b => Some (if b then PLoopTopOk else PMustCanceled)
  | PLoopTopOk, IsCanceling b => Some (if b then PMustCanceled else PLookup)
  | PLookup, LookupTransform found =>
      Some (match found with Some _ => PRequest | None => PMustAbort end)
  | PRequest, AsyncSendRequest _ _ => Some PWait
  | PWait, WaitFor b => Some (if b then PGet else PWaitTimedOut)
  | PWaitTimedOut, RclcppOk b => Some (if b then PWaitOk else PMustCanceled)
  | PWaitOk, IsCanceling b => Some (if b then PMustCanceled else PWait)
  | PGet, FutureGet r => Some (if success r then PSampled else PMustAbort)
  | PSampled, AsyncSendRequest _ _ => Some PWait
  | PSampled, GoalSucceed => Some PDone
  | PSampled, Now _ => Some PStamped
  | PStamped, GoToPose _ b => Some (if b then PPoll else PMustAbort)
  | PPoll, WaitForCompletion b => Some (if b then PNavDone else PPollPending)
  | PPollPending, RclcppOk b => Some (if b then PPollOk else PMustNavCancel)
  | PPollOk, IsCanceling b => Some (if b then PMustNavCancel else PPoll)
  | PMustNavCancel, NavigatorCancel => Some PMustCanceled
  | PNavDone, NavigatorSucceeded b => Some (if b then PLoopTop else PMustAbort)
  | PMustAbort, GoalAbort => Some PDone
  | PMustCanceled, GoalCanceled => Some PDone
  | _, _ => None
  end.

Fixpoint run (q : phase) (evs : list event) : option phase :=
  match evs with
  | [] => Some q
  | e :: evs' =>
      match step q e with
      | Some q' => run q' evs'
      | None => None
      end
  end.

(** The tests of the three loops, where a run can exhaust its fuel. *)
Definition loop_head (q : phase) : bool :=
  match q with
  | PLoopTop | PWait | PPoll => true
  | _ => false
  end.

(** The phases of the sampling of an iteration, from the position lookup
    to the last sample. *)
Definition sampling (q : phase) : bool :=
  match q with
  | PRequest | PWait | PWaitTimedOut | PWaitOk | PGet | PSampled => true
  | _ => false
  end.

(** Where a run can end: the outcome is reported, or the fuel ran out. *)
Definition ended (q : phase) : Prop := q = PDone \/ loop_head q = true.

(** What ends a loop body decides the phase: the loop test after
    [Continue], the reported outcome after [Return]. *)
Definition after_body (how : flow) (q : phase) : Prop :=
  q = match how with Continue => PLoopTop | Return => PDone end.

(** The phases in which a sample request is outstanding. *)
Definition awaiting_response (q : phase) : bool :=
  match q with
  | PWait | PWaitTimedOut | PWaitOk | PGet => true
  | _ => false
  end.

(** The phases in which a navigation is outstanding or being cancelled. *)
Definition navigating (q : phase) : bool :=
  match q with
  | PPoll | PPollPending | PPollOk | PNavDone | PMustNavCancel => true
  | _ => false
  end.

(** The phases from which only the report of the outcome is left. *)
Definition closing (q : phase) : bool :=
  match q with
  | PMustAbort | PMustCanceled | PDone => true
  | _ => false
  end.

(** [follows q o Q]: the events of [o] are a path of the protocol from [q];
    a returned value and the phase reached satisfy [Q], an exception leaves
    the abort due, fuel runs out at a loop test only, and there is no
    undefined behaviour. *)
Definition follows (A : Type) (q : phase) (o : Out A)
    (Q : A -> phase -> Prop) : Prop :=
  match result o with
  | Val a => exists q', run q (events o) = Some q' /\ Q a q'
  | Exn => run q (events o) = Some PMustAbort
  | NoFuel => exists q', run q (events o) = Some q' /\ loop_head q' = true
  | Fault => False
  end.

(** ** Readings of a trace *)

(** The three reports of an outcome. *)
Definition terminal (e : event) : bool :=
  match e with
  | GoalAbort | GoalSucceed | GoalCanceled => true
  | _ => false
  end.

Definition elevation_request (e : event) : bool :=
  match e with
  | AsyncSendRequest _ _ => true
  | _ => false
  end.

Definition navigation_request (e : event) : bool :=
  match e with
  | GoToPose _ _ => true
  | _ => false
  end.

Definition request (e : event) : bool :=
  elevation_request e || navigation_request e.

(** The positions of the elevation requests, in order. *)
Fixpoint requested_positions (evs : list event) : list Vector2d :=
  match evs with
  | [] => []
  | AsyncSendRequest x y :: evs' => {| vx := x; vy := y |} :: requested_positions evs'
  | _ :: evs' => requested_positions evs'
  end.

(** The events of the iteration in progress at the end of [evs]: those after
    the last position lookup (all of them when there was none). *)
Definition since_lookup (evs : list event) : list event :=
  fold_left
    (fun acc e => match e with LookupTransform _ => [] | _ => acc ++ [e] end)
    evs [].

(** The answer of the last position lookup in [evs]. *)
Definition last_lookup (evs : list event) : option Vector2d :=
  fold_left
    (fun found e => match e with LookupTransform found' => found' | _ => found end)
    evs None.

Definition position_lookup (e : event) : bool :=
  match e with
  | LookupTransform _ => true
  | _ => false
  end.

(** [ring_requests cos sin found requested evs]: in [evs], read after a
    position lookup answered [found] and was followed by elevation requests
    at [requested], every elevation request extends the requests since the
    last lookup to a prefix of the position looked up followed by the ring
    around it. *)
Fixpoint ring_requests (cos sin : double -> double) (found : option Vector2d)
    (requested : list Vector2d) (evs : list event) : Prop :=
  match evs with
  | [] => True
  | LookupTransform found' :: evs' => ring_requests cos sin found' [] evs'
  | AsyncSendRequest x y :: evs' =>
      let requested' := requested ++ [{| vx := x; vy := y |}] in
      (exists robot_position,
         found = Some robot_position /\
         requested' =
         firstn (length requested')
                (robot_position :: sample_positions cos sin robot_position)) /\
      ring_requests cos sin found requested' evs'
  | _ :: evs' => ring_requests cos sin found requested evs'
  end.

(** Cancellation as a checkpoint sees it: [!rclcpp::ok() ||
    goal_handle->is_canceling()] evaluates to true. *)
Definition stop_observed (evs : list event) : Prop :=
  evs = [RclcppOk false] \/ evs = [RclcppOk true; IsCanceling true].

(** [m] never returns: it exhausts every amount of fuel. *)
Definition blocks_forever (A : Type) (m : nat -> M A) (env : Env) (t : nat) : Prop :=
  forall fuel, result (m fuel env t) = NoFuel.

(** [m] never returns and never reports an outcome: it exhausts every
    amount of fuel, and no run of it holds a report. *)
Definition never_reports (A : Type) (m : nat -> M A) (env : Env) (t : nat) : Prop :=
  forall fuel,
    result (m fuel env t) = NoFuel /\
    forallb (fun e => negb (terminal e)) (events (m fuel env t)) = true.

(** [m] is a maximum of [l] in the order of doubles: a member that no
    member exceeds.  A list that holds a NaN has none. *)
Definition maximum_of (l : list double) (m : double) : Prop :=
  In m l /\ forall e, In e l -> SFleb e m = true.

(** Every event of every run of [m] satisfies [P]. *)
Definition only (P : event -> bool) (A : Type) (m : M A) : Prop :=
  forall env t, forallb P (events (m env t)) = true.

(** The three checks [execute] makes before its loop. *)
Definition precondition_check (e : event) : bool :=
  match e with
  | ServiceIsReady _ | CanTransform _ | ServerAvailable _ => true
  | _ => false
  end.

(** The [k]-th round of the wait of [SampleElevation] entered at clock [t]
    ends the wait: the future is ready, or [rclcpp::ok()] fails, or the goal
    is canceling.  A round that does not end the wait takes three answers. *)
Definition round_ends (env : Env) (t k : nat) : Prop :=
  future_wait_for env (t + 3 * k) = true \/
  rclcpp_ok env (t + 3 * k + 1) = false \/
  goal_is_canceling env (t + 3 * k + 2) = true.

(** The elevations of the responses received, in order. *)
Fixpoint received_elevations (evs : list event) : list double :=
  match evs with
  | [] => []
  | FutureGet response :: evs' => elevation response :: received_elevations evs'
  | _ :: evs' => received_elevations evs'
  end.

Definition response_received (e : event) : bool :=
  match e with
  | FutureGet _ => true
  | _ => false
  end.

(** The two decisions of an iteration: the report of success and the
    request to the navigator. *)
Definition decision (e : event) : bool :=
  match e with
  | GoalSucceed | GoToPose _ _ => true
  | _ => false
  end.

(** The answers after which [execute] aborts the goal. *)
Definition abort_cause (e : event) : bool :=
  match e with
  | ServiceIsReady ready => negb ready
  | CanTransform can => negb can
  | ServerAvailable available => negb available
  | LookupTransform None => true
  | FutureGet response => negb (success response)
  | GoToPose _ accepted => negb accepted
  | NavigatorSucceeded ok => negb ok
  | _ => false
  end.

(** The [k]-th round of the wait for the navigator entered at clock [t] ends
    the wait: the navigation finished, or [rclcpp::ok()] fails, or the goal
    is canceling.  A round that does not end the wait takes three answers. *)
Definition poll_ends (env : Env) (t k : nat) : Prop :=
  navigator_wait_for_completion env (t + 3 * k) = true \/
  rclcpp_ok env (t + 3 * k + 1) = false \/
  goal_is_canceling env (t + 3 * k + 2) = true.

(** The answer recorded in [e] is one that [env] gives at some time. *)
Definition answered_by (env : Env) (e : event) : Prop :=
  match e with
  | ServiceIsReady ready => exists t, elevation_service_is_ready env t = ready
  | CanTransform can => exists t, tf_canTransform env t = can
  | ServerAvailable available =>
      exists t, navigator_server_available env t = available
  | RclcppOk running => exists t, rclcpp_ok env t = running
  | IsCanceling canceling => exists t, goal_is_canceling env t = canceling
  | LookupTransform found => exists t, tf_lookupTransform env t = found
  | WaitFor ready => exists t, future_wait_for env t = ready
  | FutureGet response => exists t, future_get env t = response
  | Now time => exists t, node_now env t = time
  | GoToPose _ accepted => exists t, navigator_go_to_pose env t = accepted
  | WaitForCompletion finished =>
      exists t, navigator_wait_for_completion env t = finished
  | NavigatorSucceeded ok => exists t, navigator_succeeded env t = ok
  | AsyncSendRequest _ _ | NavigatorCancel
  | GoalAbort | GoalSucceed | GoalCanceled => True
  end.

(** Every answer in every run of [m] is one of the environment. *)
Definition answered (A : Type) (m : M A) : Prop :=
  forall env t, Forall (answered_by env) (events (m env t)).

(** Nothing fails and nobody stops the goal: the preconditions hold, the
    process keeps running, the caller does not cancel, the robot position
    can be looked up, every sample succeeds, and the navigator accepts every
    goal and succeeds in every navigation it finishes.  Nothing is asked of
    how long the elevation service and the navigator take. *)
Definition healthy (env : Env) : Prop :=
  (forall t, elevation_service_is_ready env t = true) /\
  (forall t, tf_canTransform env t = true) /\
  (forall t, navigator_server_available env t = true) /\
  (forall t, rclcpp_ok env t = true) /\
  (forall t, goal_is_canceling env t = false) /\
  (forall t, tf_lookupTransform env t <> None) /\
  (forall t, success (future_get env t) = true) /\
  (forall t, navigator_go_to_pose env t = true) /\
  (forall t, navigator_succeeded env t = true).

(** The calls by which [execute] gives up a goal. *)
Definition gives_up (e : event) : bool :=
  match e with
  | GoalAbort | GoalCanceled | NavigatorCancel => true
  | _ => false
  end.

(** ** Scenarios *)

(** A function given by its values at the eight ring angles (NaN
    elsewhere). *)
Definition on_ring (values : list double) (angle : double) : double :=
  match
    find (fun entry => SFeqb (ring_angle (fst entry)) angle)
         (combine (seq 0 8) values)
  with
  | Some (_, value) => value
  | None => S754_nan
  end.

(** The cosine and sine of the GNU C library at the ring angles. *)
Definition libm_cos : double -> double :=
  on_ring
    [ S754_finite false 4503599627370496 (-52);
      S754_finite false 6369051672525773 (-53);
      S754_finite false 4967757600021511 (-106);
      S754_finite true 6369051672525772 (-53);
      S754_finite true 4503599627370496 (-52);
      S754_finite true 6369051672525774 (-53);
      S754_finite true 7451636400032266 (-105);
      S754_finite false 6369051672525771 (-53) ].

Definition libm_sin : double -> double :=
  on_ring
    [ S754_zero false;
      S754_finite false 6369051672525772 (-53);
      S754_finite false 4503599627370496 (-52);
      S754_finite false 6369051672525773 (-53);
      S754_finite false 4967757600021511 (-105);
      S754_finite true 6369051672525772 (-53);
      S754_finite true 4503599627370496 (-52);
      S754_finite true 6369051672525774 (-53) ].

Definition origin : Vector2d := {| vx := dzero; vy := dzero |}.

(** An elevation service that answers at once: the sample answered at clock
    [first + 2 * n] gets the [n]-th of [elevations]. *)
Definition scripted_elevations (elevations : list nat) (first : nat)
    : nat -> Response :=
  fun t =>
    {| success := true;
       elevation := double_of_nat (nth ((t - first) / 2) elevations 0) |}.

(** The robot stands at the origin, the robot position can be looked up and
    the navigator is available, accepts every goal and succeeds when it
    finishes; the rest is given: whether the elevation service is [ready],
    and, by the clock, whether the process is [running], the goal
    [canceling], a sample [answered], the [response] to a sample, and
    whether the navigation has [finished]. *)
Definition scenario (ready : bool) (running canceling answered : nat -> bool)
    (response : nat -> Response) (finished : nat -> bool) : Env :=
  {| elevation_service_is_ready := fun _ => ready;
     tf_canTransform := fun _ => true;
     navigator_server_available := fun _ => true;
     rclcpp_ok := running;
     goal_is_canceling := canceling;
     tf_lookupTransform := fun _ => Some origin;
     future_wait_for := answered;
     future_get := response;
     node_now := fun _ => 0%Z;
     navigator_go_to_pose := fun _ => true;
     navigator_wait_for_completion := finished;
     navigator_succeeded := fun _ => true |}.

Definition always (b : bool) : nat -> bool := fun _ => b.

(** Everything is available and succeeds at once, nobody cancels, and every
    elevation is 0. *)
Definition calm : Env :=
  scenario true (always true) (always false) (always true)
    (scripted_elevations [] 0) (always true).

(** The elevation service is not ready when the goal starts. *)
Definition service_down : Env :=
  scenario false (always true) (always false) (always true)
    (scripted_elevations [] 0) (always true).

(** The process is shutting down and nobody cancels the goal. *)
Definition shutting_down : Env :=
  scenario true (always false) (always false) (always true)
    (scripted_elevations [] 0) (always true).

(** The elevation service never answers and nobody cancels the goal. *)
Definition silent_service : Env :=
  scenario true (always true) (always false) (always false)
    (scripted_elevations [] 0) (always true).

(** The elevation service never answers and the caller cancels the goal from
    clock 8 on. *)
Definition canceled_while_sampling : Env :=
  scenario true (always true) (fun t => 8 <=? t) (always false)
    (scripted_elevations [] 0) (always true).

(** Scenario C: the elevation service reports a failure for every sample. *)
Definition failing_service : Env :=
  scenario true (always true) (always false) (always true)
    (fun _ => {| success := false; elevation := dzero |}) (always true).

(** Scenario D on the ring of Scenario B: the robot is at elevation 5 and
    the ring at 6, 3, 2, 1, 0, 1, 2, 3; the navigator accepts the goal and
    never finishes, and the caller cancels the goal from clock 28 on, after
    the first wait for the navigator timed out. *)
Definition canceled_while_navigating : Env :=
  scenario true (always true) (fun t => 28 <=? t) (always true)
    (scripted_elevations [5; 6; 3; 2; 1; 0; 1; 2; 3] 7) (always false).

(** Scenario A, one iteration entered at clock 0 on a peak: the robot is at
    elevation 5 and the ring at 4, 3, 2, 1, 0, 1, 2, 3. *)
Definition on_peak : Env :=
  scenario true (always true) (always false) (always true)
    (scripted_elevations [5; 4; 3; 2; 1; 0; 1; 2; 3] 2) (always true).

(** One iteration entered at clock 0 below a peak: the robot is at elevation
    5 and the ring at 3, 6, 2, 6, 0, 1, 2, 3, with its maximum 6 at the
    positions 1 and 3. *)
Definition below_peak : Env :=
  scenario true (always true) (always false) (always true)
    (scripted_elevations [5; 3; 6; 2; 6; 0; 1; 2; 3] 2) (always true).

(** The elevation service answers at once with [response] and nobody
    cancels; the navigator is given by the clock: whether it has [accepted]
    a goal, [finished] a navigation and [succeeded] in it. *)
Definition navigator_scenario (response : nat -> Response)
    (accepted finished succeeded : nat -> bool) : Env :=
  {| elevation_service_is_ready := fun _ => true;
     tf_canTransform := fun _ => true;
     navigator_server_available := fun _ => true;
     rclcpp_ok := fun _ => true;
     goal_is_canceling := fun _ => false;
     tf_lookupTransform := fun _ => Some origin;
     future_wait_for := fun _ => true;
     future_get := response;
     node_now := fun _ => 0%Z;
     navigator_go_to_pose := accepted;
     navigator_wait_for_completion := finished;
     navigator_succeeded := succeeded |}.

(** Below a peak (the robot at elevation 5, the ring at 6, 3, 2, 1, 0, 1, 2,
    3), the navigation finishes and fails. *)
Definition navigation_fails : Env :=
  navigator_scenario (scripted_elevations [5; 6; 3; 2; 1; 0; 1; 2; 3] 7)
    (always true) (always true) (always false).

(** Below a peak, the navigator rejects the goal. *)
Definition navigation_rejected : Env :=
  navigator_scenario (scripted_elevations [5; 6; 3; 2; 1; 0; 1; 2; 3] 7)
    (always false) (always true) (always true).

(** Scenario B: below a peak, the navigation succeeds; the second iteration
    finds every elevation 0 and ends the search. *)
Definition one_climb : Env :=
  navigator_scenario (scripted_elevations [5; 6; 3; 2; 1; 0; 1; 2; 3] 7)
    (always true) (always true) (always true).

(** Two iterations below a peak, each with a navigation that succeeds; the
    third iteration finds every elevation 0 and ends the search.  The samples
    of the second iteration are answered from clock 32 on. *)
Definition two_climbs : Env :=
  navigator_scenario
    (scripted_elevations
       [5; 6; 3; 2; 1; 0; 1; 2; 3; 0; 0; 0; 6; 7; 3; 2; 1; 0; 1; 2; 3] 7)
    (always true) (always true) (always true).

(** The preconditions hold, and then the robot position cannot be looked
    up. *)
Definition lost_robot : Env :=
  {| elevation_service_is_ready := fun _ => true;
     tf_canTransform := fun _ => true;
     navigator_server_available := fun _ => true;
     rclcpp_ok := fun _ => true;
     goal_is_canceling := fun _ => false;
     tf_lookupTransform := fun _ => None;
     future_wait_for := fun _ => true;
     future_get := scripted_elevations [] 0;
     node_now := fun _ => 0%Z;
     navigator_go_to_pose := fun _ => true;
     navigator_wait_for_completion := fun _ => true;
     navigator_succeeded := fun _ => true |}.

(** * The square and the grey squares

    [main] of hardware_applications/week3/final_main.cpp: the robot drives a
    square, then moves along a strip of paper, measuring the light at every
    square until it sees a black one, and prints how many of the squares
    before it were grey.  The values of [robot.LightValue()] are taken as
    they are stored in the [vector<int>]. *)

Module FinalMain.

Inductive MotorPort : Type := A | B.

(** What is inserted into [std::cout]. *)
Inductive printed : Type :=
| Number (n : Z)
| Text (s : String.string)
| Endl.

(** The calls of [main] on the robot and on [std::cout]. *)
Inductive call : Type :=
| SetMotor (port : MotorPort) (speed : Z)
| Wait (milliseconds : Z)
| LightValue (value : Z)
| Cout (item : printed).

Inductive outcome : Type :=
| Returns (code : Z)   (* [main] returns [code] *)
| NoFuel               (* the measuring loop ran out of fuel *)
| Fault.               (* undefined behaviour *)

(** [std::map<string, pair<int,int>>]; only [operator[]] is used. *)
Definition moves : Type := list (String.string * (Z * Z)).

Fixpoint find (key : String.string) (m : moves) : option (Z * Z) :=
  match m with
  | [] => None
  | (k, v) :: m' => if String.eqb key k then Some v else find key m'
  end.

(** [m[key] = value]. *)
Fixpoint assign (key : String.string) (value : Z * Z) (m : moves) : moves :=
  match m with
  | [] => [(key, value)]
  | (k, v) :: m' =>
      if String.eqb key k then (k, value) :: m' else (k, v) :: assign key value m'
  end.

(** [m[key]] as a value: a key that is absent is inserted, with the
    value-initialised pair. *)
Definition index (key : String.string) (m : moves) : (Z * Z) * moves :=
  match find key m with
  | Some v => (v, m)
  | None => ((0, 0)%Z, assign key (0, 0)%Z m)
  end.

(** Lines 18-23. *)
Definition known_moves : moves :=
  assign "right"%string (-100, 100)%Z
    (assign "left"%string (100, -100)%Z
       (assign "backward"%string (-100, -100)%Z
          (assign "forward"%string (100, 100)%Z []))).

(** [path[i] = command]. *)
Definition set_at (i : nat) (command : String.string)
    (path : list String.string) : list String.string :=
  firstn i path ++ command :: skipn (S i) path.

(** Lines 31-37, the loop from [i] on, [count] elements being left. *)
Fixpoint fill (count i : nat) (path : list String.string) : list String.string :=
  match count with
  | O => path
  | S count' =>
      fill count' (S i)
        (set_at i (if i mod 2 =? 0 then "forward"%string else "left"%string)
           path)
  end.

(** Lines 29-37. *)
Definition square_path : list String.string :=
  fill 8 0 (repeat String.EmptyString 8).

Definition black_threshold : Z := 10.
Definition grey_threshold : Z := 40.

(** Lines 40-43 and 62-65: the speeds of [command] are looked up and set,
    and the robot waits 250 ms. *)
Definition move (command : String.string) (known : moves) : list call * moves :=
  let (speeds, known') := index command known in
  ([SetMotor A (fst speeds); SetMotor B (snd speeds); Wait 250], known').

(** Lines 39-44. *)
Fixpoint drive (path : list String.string) (known : moves) : list call * moves :=
  match path with
  | [] => ([], known)
  | command :: path' =>
      let (moved, known') := move command known in
      let (calls, known'') := drive path' known' in
      (moved ++ calls, known'')
  end.

(** [measurements.empty() || measurements.back() > black_threshold]. *)
Definition keep_measuring (measurements : list Z) : bool :=
  match measurements with
  | [] => true
  | _ => (black_threshold <? last measurements 0)%Z
  end.

Definition is_grey (value : Z) : bool := (value <? grey_threshold)%Z.

Section Main.

(** [light n] is what the [n]-th call of [robot.LightValue()] returns. *)
Variable light : nat -> Z.

(** Lines 57-66, entered after [taken] measurements. *)
Fixpoint measure (fuel taken : nat) (measurements : list Z) (known : moves)
    : list call * option (list Z) :=
  match fuel with
  | O => ([], None)
  | S fuel' =>
      if keep_measuring measurements then
        let value := light taken in
        let (moved, known') := move "forward"%string known in
        let (calls, measured) :=
          measure fuel' (S taken) (measurements ++ [value]) known' in
        (LightValue value :: moved ++ calls, measured)
      else ([], Some measurements)
  end.

(** Lines 10-78. *)
Definition main (fuel : nat) : list call * outcome :=
  let (driven, known) := drive square_path known_moves in
  let (measured, stopped) := measure fuel 0 [] known in
  match stopped with
  | None => (driven ++ measured, NoFuel)
  | Some [] => (driven ++ measured, Fault)
  | Some measurements =>
      let measurements' := removelast measurements in
      let number_of_grey_squares :=
        Z.of_nat (length (filter is_grey measurements')) in
      (driven ++ measured
       ++ [Cout (Number number_of_grey_squares);
           Cout (Text " grey squares detected."%string);
           Cout Endl],
       Returns 0)
  end.

End Main.

(** Four squares, one grey, then a black square. *)
Definition strip : nat -> Z :=
  fun n => nth n [50; 30; 60; 45; 5]%Z 0%Z.

(** A strip with no black square. *)
Definition white_strip : nat -> Z := fun _ => 50%Z.

End FinalMain.

(** * Properties *)

(** ** The order of doubles *)

Ltac compare_cases :=
  repeat match goal with
  | |- context [Z.compare ?a ?b] => destruct (Z.compare_spec a b)
  | |- context [Pos.compare_cont Eq ?a ?b] =>
      change (Pos.compare_cont Eq a b) with (Pos.compare a b);
      destruct (Pos.compare_spec a b)
  | H : context [Z.compare ?a ?b] |- _ => destruct (Z.compare_spec a b)
  | H : context [Pos.compare_cont Eq ?a ?b] |- _ =>
      change (Pos.compare_cont Eq a b) with (Pos.compare a b) in H;
      destruct (Pos.compare_spec a b)
  end.

(** Decides a statement about [SFleb] and [SFltb] on variables by the cases
    of [SFcompare]. *)
Ltac float_order :=
  unfold SFleb, SFltb, SFcompare;
  repeat match goal with
  | x : double |- _ => destruct x
  | s : bool |- _ => destruct s
  end;
  intros; cbn [CompOpp] in *;
  try reflexivity; try discriminate;
  compare_cases; cbn [CompOpp] in *; subst;
  try reflexivity; try discriminate; try lia.

Lemma SFleb_trans (a b c : double) :
  SFleb a b = true -> SFleb b c = true -> SFleb a c = true.
Proof. float_order. Qed.

Lemma SFltb_leb (a b : double) : SFltb a b = true -> SFleb a b = true.
Proof. float_order. Qed.

Lemma SFleb_not_ltb (a b : double) : SFleb a b = true -> SFltb b a = false.
Proof. float_order. Qed.

Lemma SFltb_not_leb (a b : double) : SFltb a b = true -> SFleb b a = false.
Proof. float_order. Qed.

(** ** std::max_element *)

(** A candidate that no later element exceeds stays. *)
Lemma max_element_from_keeps (l : list double) :
  forall largest best i,
    (forall e, In e l -> SFleb e best = true) ->
    max_element_from largest best i l = largest.
Proof.
  induction l as [|e l IH]; intros largest best i Hle; cbn [max_element_from].
  - reflexivity.
  - rewrite (SFleb_not_ltb e best) by (apply Hle; left; reflexivity).
    apply IH. intros x Hx. apply Hle. right. exact Hx.
Qed.

(** The first element that exceeds everything before it, and that nothing
    after it exceeds, is the one returned. *)
Lemma max_element_from_finds (l1 : list double) :
  forall m l2 largest best i,
    SFltb best m = true ->
    (forall e, In e l1 -> SFltb e m = true) ->
    (forall e, In e l2 -> SFleb e m = true) ->
    max_element_from largest best i (l1 ++ m :: l2) = i + length l1.
Proof.
  induction l1 as [|e l1 IH]; intros m l2 largest best i Hbest Hlt Hle;
    cbn [app max_element_from length].
  - rewrite Hbest, Nat.add_0_r. apply max_element_from_keeps. exact Hle.
  - assert (He : SFltb e m = true) by (apply Hlt; left; reflexivity).
    assert (Hlt' : forall x, In x l1 -> SFltb x m = true)
      by (intros x Hx; apply Hlt; right; exact Hx).
    destruct (SFltb best e).
    + rewrite (IH m l2 i e (S i) He Hlt' Hle). lia.
    + rewrite (IH m l2 largest best (S i) Hbest Hlt' Hle). lia.
Qed.

(** The returned index stays inside the range. *)
Lemma max_element_from_in_range (l : list double) :
  forall prefix largest best,
    nth_error (prefix ++ l) largest = Some best ->
    exists x,
      nth_error (prefix ++ l)
        (max_element_from largest best (length prefix) l) = Some x.
Proof.
  induction l as [|e l IH]; intros prefix largest best Hbest;
    cbn [max_element_from].
  - exists best. exact Hbest.
  - destruct (SFltb best e).
    + specialize (IH (prefix ++ [e]) (length prefix) e).
      rewrite length_app, Nat.add_1_r, <- app_assoc in IH. apply IH.
      rewrite nth_error_app2 by lia. rewrite Nat.sub_diag. reflexivity.
    + specialize (IH (prefix ++ [e]) largest best).
      rewrite length_app, Nat.add_1_r, <- app_assoc in IH. apply IH.
      exact Hbest.
Qed.

Lemma max_element_in_range (l : list double) :
  l <> [] ->
  exists i x, max_element l = Some i /\ nth_error l i = Some x.
Proof.
  destruct l as [|e l]; intros Hne; [contradiction|].
  destruct (max_element_from_in_range l [e] 0 (best := e) eq_refl) as [x Hx].
  exists (max_element_from 0 e 1 l), x. split; [reflexivity|exact Hx].
Qed.

(** [std::max_element] returns the first position of a maximum. *)
Lemma max_element_first_maximum (l : list double) (i : nat) (m : double) :
  nth_error l i = Some m ->
  (forall e, In e l -> SFleb e m = true) ->
  (forall j e, j < i -> nth_error l j = Some e -> SFltb e m = true) ->
  max_element l = Some i.
Proof.
  intros Hi Hle Hlt.
  destruct (nth_error_split l i Hi) as (l1 & l2 & -> & Hlen).
  assert (Hle2 : forall e, In e l2 -> SFleb e m = true)
    by (intros e He; apply Hle, in_or_app; right; right; exact He).
  assert (Hlt1 : forall e, In e l1 -> SFltb e m = true).
  { intros e He. destruct (In_nth_error _ _ He) as [j Hj].
    assert (Hjlt : j < length l1)
      by (apply nth_error_Some; rewrite Hj; discriminate).
    apply (Hlt j e); [lia|].
    rewrite nth_error_app1 by exact Hjlt. exact Hj. }
  destruct l1 as [|e0 l1]; cbn [app max_element] in *.
  - subst i. f_equal. apply max_element_from_keeps. exact Hle2.
  - f_equal. rewrite max_element_from_finds.
    + cbn [length] in Hlen. lia.
    + apply Hlt1. left. reflexivity.
    + intros e He. apply Hlt1. right. exact He.
    + exact Hle2.
Qed.

(** ** Paths of the protocol *)

Lemma run_app (a b : list event) :
  forall q,
    run q (a ++ b) =
    match run q a with Some q' => run q' b | None => None end.
Proof.
  induction a as [|e a IH]; intros q; cbn [app run].
  - reflexivity.
  - destruct (step q e); [apply IH|reflexivity].
Qed.

(** Nothing follows the report of an outcome. *)
Lemma run_done (evs : list event) (q : phase) :
  run PDone evs = Some q -> evs = [].
Proof. destruct evs as [|e evs]; [reflexivity|destruct e; discriminate]. Qed.

Lemma loop_head_not_done (q : phase) : loop_head q = true -> q <> PDone.
Proof. intros H ->. discriminate. Qed.

(** ** Rules for [follows] *)

Section Rules.

Variables A B : Type.
Variable env : Env.

Lemma follows_ret (a : A) (q : phase) (t : nat) (Q : A -> phase -> Prop) :
  Q a q -> follows q (ret a env t) Q.
Proof. intros HQ. exists q. split; [reflexivity|exact HQ]. Qed.

Lemma follows_bind (m : M A) (k : A -> M B) (q : phase) (t : nat)
    (Q1 : A -> phase -> Prop) (Q2 : B -> phase -> Prop) :
  follows q (m env t) Q1 ->
  (forall a q1 t', Q1 a q1 -> follows q1 (k a env t') Q2) ->
  follows q (bind m k env t) Q2.
Proof.
  unfold follows, bind. intros Hm Hk.
  destruct (result (m env t)) as [a| | |]; cbn.
  - destruct Hm as (q1 & Hrun & HQ1).
    specialize (Hk a q1 (clock (m env t)) HQ1).
    rewrite run_app, Hrun.
    destruct (result (k a env (clock (m env t)))); exact Hk.
  - exact Hm.
  - exact Hm.
  - exact Hm.
Qed.

Lemma follows_ask_bind (answer : Env -> nat -> A) (call : A -> event)
    (k : A -> M B) (q q' : phase) (t : nat) (Q : B -> phase -> Prop) :
  step q (call (answer env t)) = Some q' ->
  follows q' (k (answer env t) env (S t)) Q ->
  follows q (bind (ask answer call) k env t) Q.
Proof.
  unfold follows, bind, ask. cbn. intros Hstep Hk. rewrite Hstep.
  destruct (result (k (answer env t) env (S t))); exact Hk.
Qed.

Lemma follows_emit_bind (e : event) (k : unit -> M B) (q q' : phase)
    (t : nat) (Q : B -> phase -> Prop) :
  step q e = Some q' ->
  follows q' (k tt env t) Q ->
  follows q (bind (emit e) k env t) Q.
Proof.
  unfold follows, bind, emit. cbn. intros Hstep Hk. rewrite Hstep.
  destruct (result (k tt env t)); exact Hk.
Qed.

Lemma follows_ask (answer : Env -> nat -> A) (call : A -> event)
    (q q' : phase) (t : nat) (Q : A -> phase -> Prop) :
  step q (call (answer env t)) = Some q' ->
  Q (answer env t) q' ->
  follows q (ask answer call env t) Q.
Proof.
  unfold follows, ask. cbn. intros Hstep HQ. rewrite Hstep.
  exists q'. split; [reflexivity|exact HQ].
Qed.

Lemma follows_emit (e : event) (q q' : phase) (t : nat)
    (Q : unit -> phase -> Prop) :
  step q e = Some q' -> Q tt q' -> follows q (emit e env t) Q.
Proof.
  unfold follows, emit. cbn. intros Hstep HQ. rewrite Hstep.
  exists q'. split; [reflexivity|exact HQ].
Qed.

Lemma follows_out_of_fuel (q : phase) (t : nat) (Q : A -> phase -> Prop) :
  loop_head q = true -> follows q (@out_of_fuel A env t) Q.
Proof. intros H. exists q. split; [reflexivity|exact H]. Qed.

Lemma follows_weaken (o : Out A) (q : phase) (Q Q' : A -> phase -> Prop) :
  follows q o Q -> (forall a q', Q a q' -> Q' a q') -> follows q o Q'.
Proof.
  unfold follows. intros H HQ. destruct (result o); try exact H.
  destruct H as (q' & Hrun & H). exists q'. split; [exact Hrun|apply HQ, H].
Qed.

Lemma follows_try_catch (m handler : M A) (q : phase) (t : nat)
    (Q : A -> phase -> Prop) :
  follows q (m env t) Q ->
  (forall t', follows PMustAbort (handler env t') Q) ->
  follows q (try_catch m handler env t) Q.
Proof.
  unfold follows, try_catch. intros Hm Hh.
  destruct (result (m env t)) eqn:Hr; cbn; rewrite ?Hr; try exact Hm.
  specialize (Hh (clock (m env t))). rewrite run_app, Hm.
  destruct (result (handler env (clock (m env t)))); exact Hh.
Qed.

End Rules.

(** ** Every run follows the protocol *)

(** One step of a proof by the rules: the next call of the code and the
    cases of its answer. *)
Ltac protocol_step :=
  first
  [ eapply follows_ask_bind; [cbn; reflexivity|]
  | eapply follows_emit_bind; [cbn; reflexivity|]
  | eapply follows_ask; [cbn; reflexivity|]
  | eapply follows_emit; [cbn; reflexivity|]
  | apply follows_ret ].

Lemma protocol_wait_for_response (env : Env) (fuel : nat) :
  forall t,
    follows PWait (wait_for_response fuel env t)
      (fun ready q => q = if ready then PGet else PDone).
Proof.
  induction fuel as [|fuel IH]; intros t; cbn [wait_for_response].
  - apply follows_out_of_fuel. reflexivity.
  - protocol_step. destruct (future_wait_for env t); cbn [negb].
    + protocol_step. reflexivity.
    + unfold shutdown_or_canceling.
      eapply follows_bind with
        (Q1 := fun (quit : bool) q => q = if quit then PMustCanceled else PWait).
      * protocol_step. destruct (rclcpp_ok env (S t)); cbn [negb].
        -- protocol_step. destruct (goal_is_canceling env (S (S t))); reflexivity.
        -- protocol_step. reflexivity.
      * intros quit q1 t' ->. destruct quit.
        -- protocol_step. protocol_step. reflexivity.
        -- apply IH.
Qed.

Lemma protocol_SampleElevation (env : Env) (fuel : nat) (position : Vector2d)
    (q : phase) (t : nat) :
  q = PRequest \/ q = PSampled ->
  follows q (SampleElevation fuel position env t)
    (fun sampled q' => q' = match sampled with Some _ => PSampled | None => PDone end).
Proof.
  intros Hq. unfold SampleElevation.
  eapply follows_emit_bind with (q' := PWait).
  { destruct Hq as [-> | ->]; reflexivity. }
  eapply follows_bind; [apply protocol_wait_for_response|].
  intros ready q1 t' ->. destruct ready.
  - protocol_step. destruct (success (future_get env t')); cbn [negb].
    + protocol_step. reflexivity.
    + protocol_step. protocol_step. reflexivity.
  - protocol_step. reflexivity.
Qed.

Lemma protocol_sample_ring (env : Env) (fuel : nat) (positions : list Vector2d) :
  forall elevations t,
    follows PSampled (sample_ring fuel positions elevations env t)
      (fun ring q =>
         match ring with
         | Some sampled =>
             q = PSampled /\ length sampled = length elevations + length positions
         | None => q = PDone
         end).
Proof.
  induction positions as [|position rest IH]; intros elevations t;
    cbn [sample_ring].
  - protocol_step. split; [reflexivity|cbn; lia].
  - eapply follows_bind.
    { apply protocol_SampleElevation. right. reflexivity. }
    intros sampled q1 t' ->. destruct sampled as [e|].
    + eapply follows_weaken; [apply IH|].
      intros [sampled|] q'; [|trivial].
      rewrite length_app. cbn. intros [-> Hlen]. split; [reflexivity|lia].
    + protocol_step. reflexivity.
Qed.

Lemma protocol_wait_for_navigation (env : Env) (fuel : nat) :
  forall t,
    follows PPoll (wait_for_navigation fuel env t)
      (fun finished q => q = if finished then PNavDone else PDone).
Proof.
  induction fuel as [|fuel IH]; intros t; cbn [wait_for_navigation].
  - apply follows_out_of_fuel. reflexivity.
  - protocol_step. destruct (navigator_wait_for_completion env t); cbn [negb].
    + protocol_step. reflexivity.
    + unfold shutdown_or_canceling.
      eapply follows_bind with
        (Q1 := fun (quit : bool) q => q = if quit then PMustNavCancel else PPoll).
      * protocol_step. destruct (rclcpp_ok env (S t)); cbn [negb].
        -- protocol_step. destruct (goal_is_canceling env (S (S t))); reflexivity.
        -- protocol_step. reflexivity.
      * intros quit q1 t' ->. destruct quit.
        -- protocol_step. protocol_step. protocol_step. reflexivity.
        -- apply IH.
Qed.

Section NodeProtocol.

Variables cos sin : double -> double.
Variable env : Env.

Lemma length_generate_n (S A : Type) (gen : S -> A * S) (n : nat) :
  forall s, length (generate_n n gen s) = n.
Proof.
  induction n as [|n IH]; intros s; cbn [generate_n].
  - reflexivity.
  - destruct (gen s) as [a s']. cbn. f_equal. apply IH.
Qed.

Lemma length_sample_positions (robot_position : Vector2d) :
  length (sample_positions cos sin robot_position) = 8.
Proof. apply length_generate_n. Qed.

Lemma protocol_sample_surroundings (fuel t : nat) :
  follows PLookup (sample_surroundings cos sin fuel env t)
    (fun surroundings q =>
       match surroundings with
       | Some (positions, _, elevations) =>
           q = PSampled /\ length positions = 8 /\ length elevations = 8
       | None => q = PDone
       end).
Proof.
  unfold sample_surroundings, sample_around, GetRobotPosition.
  eapply follows_bind with (Q1 := fun (_ : Vector2d) q => q = PRequest).
  { protocol_step. destruct (tf_lookupTransform env t); cbn [negb].
    - protocol_step. reflexivity.
    - reflexivity. }
  intros robot_position q1 t1 ->.
  eapply follows_bind.
  { apply protocol_SampleElevation. left. reflexivity. }
  intros sampled q2 t2 ->. destruct sampled as [current_elevation|].
  - eapply follows_bind; [apply protocol_sample_ring|].
    intros [elevations|] q3 t3.
    + intros [-> Hlen]. protocol_step.
      rewrite length_sample_positions in *. cbn in Hlen. auto.
    + intros ->. protocol_step. reflexivity.
  - protocol_step. reflexivity.
Qed.

Lemma protocol_decide_and_navigate (fuel t : nat) (positions : list Vector2d)
    (current_elevation : double) (elevations : list double) :
  elevations <> [] ->
  length positions = length elevations ->
  follows PSampled
    (decide_and_navigate fuel positions current_elevation elevations env t)
    after_body.
Proof.
  intros Hne Hlen. unfold decide_and_navigate, after_body.
  destruct (max_element_in_range Hne) as (i & x & -> & Hx). rewrite Hx.
  destruct (SFleb x current_elevation).
  - protocol_step. protocol_step. reflexivity.
  - assert (Hi : i < length positions)
      by (rewrite Hlen; apply nth_error_Some; rewrite Hx; discriminate).
    destruct (nth_error positions i) as [goal_position|] eqn:Hgoal;
      [|apply nth_error_None in Hgoal; lia].
    protocol_step. protocol_step.
    destruct (navigator_go_to_pose env (S t)); cbn [negb].
    + eapply follows_bind; [apply protocol_wait_for_navigation|].
      intros finished q1 t1 ->. destruct finished.
      * protocol_step. destruct (navigator_succeeded env t1); cbn [negb].
        -- protocol_step. reflexivity.
        -- protocol_step. protocol_step. reflexivity.
      * protocol_step. reflexivity.
    + protocol_step. protocol_step. reflexivity.
Qed.

Lemma protocol_loop_body (fuel t : nat) :
  follows PLookup (loop_body cos sin fuel env t) after_body.
Proof.
  unfold loop_body.
  eapply follows_bind; [apply protocol_sample_surroundings|].
  intros [[[positions current_elevation] elevations]|] q1 t1.
  - intros (-> & Hp & He). apply protocol_decide_and_navigate.
    + intros ->. discriminate.
    + congruence.
  - intros ->. protocol_step. reflexivity.
Qed.

Lemma protocol_search_loop (fuel : nat) :
  forall t,
    follows PLoopTop (search_loop cos sin fuel env t) (fun _ q => q = PDone).
Proof.
  induction fuel as [|fuel IH]; intros t; cbn [search_loop].
  - apply follows_out_of_fuel. reflexivity.
  - unfold running_and_not_canceling.
    eapply follows_bind with
      (Q1 := fun (go_on : bool) q => q = if go_on then PLookup else PMustCanceled).
    + protocol_step. destruct (rclcpp_ok env t); cbn [negb].
      * protocol_step. destruct (goal_is_canceling env (S t)); cbn [negb];
          protocol_step; reflexivity.
      * protocol_step. reflexivity.
    + intros go_on q1 t1 ->. destruct go_on.
      * eapply follows_bind; [apply protocol_loop_body|].
        intros how q2 t2 ->. destruct how.
        -- apply IH.
        -- protocol_step. reflexivity.
      * protocol_step. reflexivity.
Qed.

Lemma follows_execute (fuel t : nat) :
  follows PStart (execute cos sin fuel env t) (fun _ q => q = PDone).
Proof.
  unfold execute.
  protocol_step. destruct (elevation_service_is_ready env t); cbn [negb];
    [|protocol_step; reflexivity].
  protocol_step. destruct (tf_canTransform env (S t)); cbn [negb];
    [|protocol_step; reflexivity].
  protocol_step. destruct (navigator_server_available env (S (S t)));
    cbn [negb]; [|protocol_step; reflexivity].
  apply follows_try_catch; [apply protocol_search_loop|].
  intros t'. protocol_step. reflexivity.
Qed.

(** [execute] catches what the search loop throws. *)
Lemma execute_catches (fuel t : nat) :
  result (execute cos sin fuel env t) <> Exn.
Proof.
  unfold execute, bind, ask, emit, try_catch. cbn.
  destruct (elevation_service_is_ready env t); cbn; [|discriminate].
  destruct (tf_canTransform env (S t)); cbn; [|discriminate].
  destruct (navigator_server_available env (S (S t))); cbn; [|discriminate].
  destruct (result (search_loop cos sin fuel env (S (S (S t))))) eqn:Hr;
    cbn; rewrite ?Hr; discriminate.
Qed.

(** The events of a run of [execute] are a path of the protocol from
    [PStart]: to [PDone] when [execute] returns, to a loop test when the
    fuel runs out.  No exception leaves [execute] and nothing it does is
    undefined. *)
Lemma protocol_execute (fuel t : nat) :
  let o := execute cos sin fuel env t in
  match result o with
  | Val _ => run PStart (events o) = Some PDone
  | NoFuel => exists q, run PStart (events o) = Some q /\ loop_head q = true
  | Exn | Fault => False
  end.
Proof.
  cbv zeta.
  pose proof (follows_execute fuel t) as H.
  pose proof (execute_catches fuel t) as Hexn.
  unfold follows in H.
  destruct (result (execute cos sin fuel env t)).
  - destruct H as (q & Hrun & ->). exact Hrun.
  - apply Hexn. reflexivity.
  - exact H.
  - exact H.
Qed.

End NodeProtocol.

(** ** Reading paths of the protocol *)

Lemma run_app_inv (a b : list event) (q qf : phase) :
  run q (a ++ b) = Some qf ->
  exists q', run q a = Some q' /\ run q' b = Some qf.
Proof.
  rewrite run_app. destruct (run q a) as [q'|]; [|discriminate].
  intros H. exists q'. split; [reflexivity|exact H].
Qed.

Lemma run_cons_inv (e : event) (evs : list event) (q qf : phase) :
  run q (e :: evs) = Some qf ->
  exists q', step q e = Some q' /\ run q' evs = Some qf.
Proof.
  cbn [run]. destruct (step q e) as [q'|]; [|discriminate].
  intros H. exists q'. split; [reflexivity|exact H].
Qed.

(** A path that has left its first phase has a last step. *)
Lemma run_last (evs : list event) (q0 q : phase) :
  run q0 evs = Some q -> q <> q0 ->
  exists evs' e q',
    evs = evs' ++ [e] /\ run q0 evs' = Some q' /\ step q' e = Some q.
Proof.
  intros Hrun Hne. destruct evs as [|e0 evs0] using rev_ind.
  - cbn in Hrun. congruence.
  - clear IHevs0. apply run_app_inv in Hrun. destruct Hrun as (q' & H1 & H2).
    apply run_cons_inv in H2. destruct H2 as (q'' & H2 & H3).
    cbn in H3. injection H3 as <-.
    exists evs0, e0, q'. auto.
Qed.

(** Splits the cases of a step of the protocol. *)
Ltac step_cases H :=
  match type of H with
  | step ?q ?e = Some _ =>
      destruct q; try discriminate H; cbn in H;
      repeat match type of H with
      | context [if ?b then _ else _] => destruct b eqn:?
      | context [match ?o with Some _ => _ | None => _ end] => destruct o eqn:?
      end;
      first [discriminate H | injection H as H; try subst | clear H]
  end.

(** Only the report of an outcome leads to [PDone]. *)
Lemma step_terminal (q q' : phase) (e : event) :
  step q e = Some q' -> terminal e = true <-> q' = PDone.
Proof.
  intros H. destruct e; step_cases H; cbn; split; congruence.
Qed.

Lemma run_must_abort (rest : list event) (qf : phase) :
  run PMustAbort rest = Some qf -> ended qf ->
  rest = [GoalAbort] /\ qf = PDone.
Proof.
  intros Hrun Hend. destruct rest as [|e rest].
  - injection Hrun as <-. destruct Hend; discriminate.
  - apply run_cons_inv in Hrun. destruct Hrun as (q' & Hstep & Hrun).
    destruct e; try discriminate Hstep. injection Hstep as <-.
    pose proof (run_done _ Hrun) as ->. injection Hrun as <-. auto.
Qed.

Lemma run_must_canceled (rest : list event) (qf : phase) :
  run PMustCanceled rest = Some qf -> ended qf ->
  rest = [GoalCanceled] /\ qf = PDone.
Proof.
  intros Hrun Hend. destruct rest as [|e rest].
  - injection Hrun as <-. destruct Hend; discriminate.
  - apply run_cons_inv in Hrun. destruct Hrun as (q' & Hstep & Hrun).
    destruct e; try discriminate Hstep. injection Hstep as <-.
    pose proof (run_done _ Hrun) as ->. injection Hrun as <-. auto.
Qed.

Lemma run_must_nav_cancel (rest : list event) (qf : phase) :
  run PMustNavCancel rest = Some qf -> ended qf ->
  rest = [NavigatorCancel; GoalCanceled] /\ qf = PDone.
Proof.
  intros Hrun Hend. destruct rest as [|e rest].
  - injection Hrun as <-. destruct Hend; discriminate.
  - apply run_cons_inv in Hrun. destruct Hrun as (q' & Hstep & Hrun).
    destruct e; try discriminate Hstep. injection Hstep as <-.
    destruct (run_must_canceled _ Hrun Hend) as [-> ->]. auto.
Qed.

(** A stop observed after a timed-out wait for a sample leaves the
    [canceled] due, one observed after a timed-out wait for the navigator
    leaves [navigator_.cancel()] due. *)
Lemma run_stop_observed (observed rest : list event) (q qf due : phase)
    (timed_out : event) :
  stop_observed observed ->
  (timed_out = WaitFor false /\ due = PMustCanceled \/
   timed_out = WaitForCompletion false /\ due = PMustNavCancel) ->
  run q (timed_out :: observed ++ rest) = Some qf ->
  run due rest = Some qf.
Proof.
  intros Hobs Hcase Hrun.
  apply run_cons_inv in Hrun. destruct Hrun as (q1 & Hstep & Hrun).
  destruct Hcase as [[-> ->] | [-> ->]]; step_cases Hstep;
    destruct Hobs as [-> | ->]; cbn in Hrun; exact Hrun.
Qed.

Arguments run_stop_observed : clear implicits.

Section NodeRuns.

Variables cos sin : double -> double.
Variable env : Env.

(** Where the path of a run of [execute] ends. *)
Lemma execute_ends (fuel t : nat) :
  let o := execute cos sin fuel env t in
  exists qf,
    run PStart (events o) = Some qf /\
    (qf = PDone /\ result o = Val tt \/
     loop_head qf = true /\ result o = NoFuel).
Proof.
  cbv zeta. pose proof (protocol_execute cos sin env fuel t) as H.
  cbv zeta in H.
  destruct (result (execute cos sin fuel env t)) as [[]| | |].
  - exists PDone. auto.
  - contradiction.
  - destruct H as (q & Hrun & Hq). exists q. auto.
  - contradiction.
Qed.

End NodeRuns.

Lemma wait_for_response_catches (env : Env) (fuel : nat) :
  forall t, result (wait_for_response fuel env t) <> Exn.
Proof.
  induction fuel as [|fuel IH]; intros t; cbn [wait_for_response].
  - discriminate.
  - unfold bind, ask, shutdown_or_canceling, ret, emit. cbn.
    destruct (future_wait_for env t); cbn; [discriminate|].
    destruct (rclcpp_ok env (S t)); cbn; [|discriminate].
    destruct (goal_is_canceling env (S (S t))); cbn; [discriminate|].
    specialize (IH (S (S (S t)))).
    destruct (result (wait_for_response fuel env (S (S (S t)))));
      cbn; congruence.
Qed.

Lemma SampleElevation_catches (env : Env) (fuel t : nat) (position : Vector2d) :
  result (SampleElevation fuel position env t) <> Exn.
Proof.
  unfold SampleElevation, bind, emit. cbn.
  pose proof (wait_for_response_catches env fuel t) as Hw.
  destruct (result (wait_for_response fuel env t)) as [[]| | |]; cbn;
    try congruence.
  unfold ask, ret. cbn. destruct (success _); cbn; discriminate.
Qed.

(** Where the path of a run of [SampleElevation] ends. *)
Lemma SampleElevation_ends (env : Env) (fuel t : nat) (position : Vector2d) :
  let o := SampleElevation fuel position env t in
  exists qf,
    run PRequest (events o) = Some qf /\
    (qf = PDone /\ result o = Val None \/
     loop_head qf = true /\ result o = NoFuel \/
     qf = PSampled /\ exists e, result o = Val (Some e)).
Proof.
  cbv zeta.
  pose proof (@protocol_SampleElevation env fuel position PRequest t
                (or_introl eq_refl)) as H.
  pose proof (SampleElevation_catches env fuel t position) as Hexn.
  unfold follows in H.
  destruct (result (SampleElevation fuel position env t)) as [[e|]| | |].
  - destruct H as (q & Hrun & ->). exists PSampled. eauto 6.
  - destruct H as (q & Hrun & ->). exists PDone. auto.
  - congruence.
  - destruct H as (q & Hrun & Hq). exists q. auto.
  - contradiction.
Qed.

(** A report of an outcome ends a path, and is its only report. *)
Lemma run_terminal_last (evs : list event) :
  forall q0 qf,
    run q0 evs = Some qf -> q0 <> PDone ->
    (qf = PDone ->
     exists before e,
       evs = before ++ [e] /\ terminal e = true /\
       forallb (fun e => negb (terminal e)) before = true) /\
    (qf <> PDone -> forallb (fun e => negb (terminal e)) evs = true).
Proof.
  induction evs as [|e evs IH]; intros q0 qf Hrun Hq0.
  - injection Hrun as <-. split; [contradiction|reflexivity].
  - apply run_cons_inv in Hrun. destruct Hrun as (q1 & Hstep & Hrun).
    pose proof (step_terminal _ _ Hstep) as Hterm.
    destruct (terminal e) eqn:He.
    + assert (q1 = PDone) as -> by (apply Hterm; reflexivity).
      pose proof (run_done _ Hrun) as ->. injection Hrun as <-.
      split; [|contradiction]. intros _. exists [], e. auto.
    + assert (Hq1 : q1 <> PDone)
        by (intros Hd; apply Hterm in Hd; discriminate).
      destruct (IH q1 qf Hrun Hq1) as [IH1 IH2]. split.
      * intros Hd. destruct (IH1 Hd) as (before & e' & -> & He' & Hb).
        exists (e :: before), e'. cbn. rewrite He. auto.
      * intros Hd. cbn. rewrite He. apply IH2, Hd.
Qed.

(** In the phases of the sampling of an iteration, no navigation was
    requested since the position lookup. *)
Lemma run_sampling (evs : list event) :
  forall q,
    run PStart evs = Some q -> sampling q = true ->
    forallb (fun e => negb (navigation_request e)) (since_lookup evs) = true.
Proof.
  induction evs as [|e evs IH] using rev_ind; intros q Hrun Hq.
  - reflexivity.
  - apply run_app_inv in Hrun. destruct Hrun as (q1 & Hrun1 & Hrun2).
    apply run_cons_inv in Hrun2. destruct Hrun2 as (q2 & Hstep & Hq2).
    injection Hq2 as ->.
    unfold since_lookup. rewrite fold_left_app. cbn [fold_left].
    fold (since_lookup evs).
    destruct e; step_cases Hstep; try discriminate Hq; try reflexivity;
      rewrite forallb_app, (IH _ Hrun1) by reflexivity; reflexivity.
Qed.

(** [goal_handle->is_canceling()] is only asked after [rclcpp::ok()] held. *)
Lemma run_after_ok (evs : list event) (q : phase) :
  run PStart evs = Some q ->
  q = PLoopTopOk \/ q = PWaitOk \/ q = PPollOk ->
  exists evs', evs = evs' ++ [RclcppOk true].
Proof.
  intros Hrun Hq.
  destruct (run_last evs Hrun) as (evs' & e & q' & -> & _ & Hstep).
  { destruct Hq as [-> | [-> | ->]]; discriminate. }
  exists evs'.
  destruct e; step_cases Hstep;
    solve [reflexivity | destruct Hq as [Hq | [Hq | Hq]]; discriminate Hq].
Qed.

(** A stop was observed just before [navigator_.cancel()] is due. *)
Lemma run_before_nav_cancel (evs : list event) :
  run PStart evs = Some PMustNavCancel ->
  exists earlier observed,
    evs = earlier ++ observed /\ stop_observed observed.
Proof.
  intros Hrun.
  destruct (run_last evs Hrun) as (evs' & e & q' & -> & Hrun' & Hstep);
    [discriminate|].
  destruct e; step_cases Hstep.
  - exists evs', [RclcppOk false]. split; [reflexivity|left; reflexivity].
  - destruct (run_after_ok _ Hrun') as (evs'' & ->); [auto|].
    exists evs'', [RclcppOk true; IsCanceling true].
    rewrite <- app_assoc. split; [reflexivity|right; reflexivity].
Qed.

(** A stop was observed just before [goal_handle->canceled] is due, with at
    most [navigator_.cancel()] in between. *)
Lemma run_before_canceled (evs : list event) :
  run PStart evs = Some PMustCanceled ->
  exists earlier observed nav,
    evs = earlier ++ observed ++ nav /\ stop_observed observed /\
    (nav = [] \/ nav = [NavigatorCancel]).
Proof.
  intros Hrun.
  destruct (run_last evs Hrun) as (evs' & e & q' & -> & Hrun' & Hstep);
    [discriminate|].
  destruct e; step_cases Hstep.
  - exists evs', [RclcppOk false], []. rewrite app_nil_r.
    split; [reflexivity|]. split; [left; reflexivity|left; reflexivity].
  - exists evs', [RclcppOk false], []. rewrite app_nil_r.
    split; [reflexivity|]. split; [left; reflexivity|left; reflexivity].
  - destruct (run_after_ok _ Hrun') as (evs'' & ->); [auto|].
    exists evs'', [RclcppOk true; IsCanceling true], [].
    rewrite app_nil_r, <- app_assoc.
    split; [reflexivity|]. split; [right; reflexivity|left; reflexivity].
  - destruct (run_after_ok _ Hrun') as (evs'' & ->); [auto|].
    exists evs'', [RclcppOk true; IsCanceling true], [].
    rewrite app_nil_r, <- app_assoc.
    split; [reflexivity|]. split; [right; reflexivity|left; reflexivity].
  - destruct (run_before_nav_cancel _ Hrun') as (earlier & observed & -> & Hobs).
    exists earlier, observed, [NavigatorCancel]. rewrite <- app_assoc.
    split; [reflexivity|]. split; [exact Hobs|right; reflexivity].
Qed.

(** ** Results and events of a sequence *)

Section Sequencing.

Variables A B : Type.

Lemma events_bind (m : M A) (k : A -> M B) (env : Env) (t : nat) :
  events (bind m k env t) =
  events (m env t) ++
  match result (m env t) with
  | Val a => events (k a env (clock (m env t)))
  | _ => []
  end.
Proof.
  unfold bind. destruct (result (m env t)); cbn; rewrite ?app_nil_r; reflexivity.
Qed.

Lemma result_bind (m : M A) (k : A -> M B) (env : Env) (t : nat) :
  result (bind m k env t) =
  match result (m env t) with
  | Val a => result (k a env (clock (m env t)))
  | Exn => Exn
  | NoFuel => NoFuel
  | Fault => Fault
  end.
Proof. unfold bind. destruct (result (m env t)); reflexivity. Qed.

Lemma clock_bind (m : M A) (k : A -> M B) (env : Env) (t : nat) :
  clock (bind m k env t) =
  match result (m env t) with
  | Val a => clock (k a env (clock (m env t)))
  | _ => clock (m env t)
  end.
Proof. unfold bind. destruct (result (m env t)); reflexivity. Qed.

Lemma only_bind (P : event -> bool) (m : M A) (k : A -> M B) :
  only P m -> (forall a, only P (k a)) -> only P (bind m k).
Proof.
  intros Hm Hk env t. rewrite events_bind, forallb_app, Hm.
  destruct (result (m env t)); [apply Hk|reflexivity..].
Qed.

Lemma only_ask (P : event -> bool) (answer : Env -> nat -> A)
    (call : A -> event) :
  (forall a, P (call a) = true) -> only P (ask answer call).
Proof. intros H env t. cbn. rewrite H. reflexivity. Qed.

Lemma only_ret (P : event -> bool) (a : A) : only P (ret a).
Proof. intros env t. reflexivity. Qed.

End Sequencing.

Lemma only_emit (P : event -> bool) (e : event) :
  P e = true -> only P (emit e).
Proof. intros H env t. cbn. rewrite H. reflexivity. Qed.

Lemma only_shutdown_or_canceling (P : event -> bool) :
  (forall b, P (RclcppOk b) = true) ->
  (forall b, P (IsCanceling b) = true) ->
  only P shutdown_or_canceling.
Proof.
  intros Hok Hcanceling. unfold shutdown_or_canceling.
  apply only_bind; [apply only_ask, Hok|].
  intros running. destruct running; cbn [negb].
  - apply only_ask, Hcanceling.
  - apply only_ret.
Qed.

(** Proves that a piece of code makes calls of one kind only, up to the
    loops and functions it calls. *)
Ltac only_calls :=
  repeat first
  [ solve [eauto 1]
  | apply only_ret
  | apply only_emit; reflexivity
  | apply only_ask; intros; reflexivity
  | apply only_shutdown_or_canceling; intros; reflexivity
  | apply only_bind; [|intros]
  | match goal with
    | |- only _ (if ?b then _ else _) => destruct b
    | |- only _ (match ?o with Some _ => _ | None => _ end) => destruct o
    end
  | (intros ? ?; reflexivity) ].

(** The wait for a response requests nothing. *)
Lemma wait_for_response_requests_nothing (fuel : nat) :
  only (fun e => negb (request e)) (wait_for_response fuel).
Proof.
  induction fuel as [|fuel IH]; cbn [wait_for_response]; only_calls.
Qed.

(** The wait for the navigator requests nothing. *)
Lemma wait_for_navigation_requests_nothing (fuel : nat) :
  only (fun e => negb (request e)) (wait_for_navigation fuel).
Proof.
  induction fuel as [|fuel IH]; cbn [wait_for_navigation]; only_calls.
Qed.

Lemma only_weaken (P P' : event -> bool) (A : Type) (m : M A) :
  (forall e, P e = true -> P' e = true) -> only P m -> only P' m.
Proof.
  intros HP Hm env t. specialize (Hm env t).
  rewrite forallb_forall in *. intros e He. apply HP, Hm, He.
Qed.

Lemma not_request_not_navigation (e : event) :
  negb (request e) = true -> negb (navigation_request e) = true.
Proof. destruct e; cbn; congruence. Qed.

Lemma not_request_not_elevation (e : event) :
  negb (request e) = true -> negb (elevation_request e) = true.
Proof. destruct e; cbn; congruence. Qed.

(** What follows the request in [SampleElevation] requests nothing. *)
Lemma SampleElevation_answer_requests_nothing (fuel : nat) :
  only (fun e => negb (request e))
    (ready <- wait_for_response fuel ;;
     if ready then
       response <- ask future_get FutureGet ;;
       if negb (success response) then emit GoalAbort ;; ret None
       else ret (Some (elevation response))
     else ret (@None double)).
Proof.
  pose proof (wait_for_response_requests_nothing fuel). only_calls.
Qed.

(** Sampling requests no navigation. *)
Lemma SampleElevation_requests_no_navigation (fuel : nat) (position : Vector2d) :
  only (fun e => negb (navigation_request e)) (SampleElevation fuel position).
Proof.
  pose proof (only_weaken _ not_request_not_navigation
                (SampleElevation_answer_requests_nothing fuel)).
  unfold SampleElevation. only_calls.
Qed.

Lemma sample_ring_requests_no_navigation (fuel : nat)
    (positions : list Vector2d) :
  forall elevations,
    only (fun e => negb (navigation_request e))
      (sample_ring fuel positions elevations).
Proof.
  pose proof (SampleElevation_requests_no_navigation fuel).
  induction positions as [|position rest IH]; intros elevations;
    cbn [sample_ring]; only_calls.
Qed.

Lemma sample_surroundings_requests_no_navigation
    (cos sin : double -> double) (fuel : nat) :
  only (fun e => negb (navigation_request e)) (sample_surroundings cos sin fuel).
Proof.
  pose proof (SampleElevation_requests_no_navigation fuel).
  pose proof (sample_ring_requests_no_navigation fuel).
  unfold sample_surroundings, sample_around, GetRobotPosition. only_calls.
Qed.

(** The decision and the navigation request no elevation. *)
Lemma decide_and_navigate_requests_no_elevation (fuel : nat)
    (positions : list Vector2d) (current_elevation : double)
    (elevations : list double) :
  only (fun e => negb (elevation_request e))
    (decide_and_navigate fuel positions current_elevation elevations).
Proof.
  pose proof (only_weaken _ not_request_not_elevation
                (wait_for_navigation_requests_nothing fuel)).
  unfold decide_and_navigate. only_calls.
Qed.

(** ** The ring *)

Lemma generate_n_angles (cos sin : double -> double) (robot_position : Vector2d)
    (n : nat) :
  forall angle,
    generate_n n (generate_next_pose cos sin robot_position) angle =
    map (at_angle cos sin robot_position)
        (generate_n n (fun a => (a, dadd a M_PI_4)) angle).
Proof.
  induction n as [|n IH]; intros angle; cbn [generate_n generate_next_pose map].
  - reflexivity.
  - rewrite IH. reflexivity.
Qed.

(** Adding [M_PI_4] up from [0.0] gives the doubles [i * M_PI_4]. *)
Lemma accumulated_angles :
  generate_n 8 (fun a => (a, dadd a M_PI_4)) dzero = map ring_angle (seq 0 8).
Proof. vm_compute. reflexivity. Qed.

Lemma sample_positions_ring (cos sin : double -> double)
    (robot_position : Vector2d) :
  sample_positions cos sin robot_position =
  map (ring_position cos sin robot_position) (seq 0 8).
Proof.
  unfold sample_positions. rewrite generate_n_angles, accumulated_angles.
  rewrite map_map. reflexivity.
Qed.

Lemma nth_error_sample_positions (cos sin : double -> double)
    (robot_position : Vector2d) (i : nat) :
  i < 8 ->
  nth_error (sample_positions cos sin robot_position) i =
  Some (ring_position cos sin robot_position i).
Proof.
  intros Hi. rewrite sample_positions_ring.
  do 8 (destruct i as [|i]; [reflexivity|]). lia.
Qed.

(** ** The positions an iteration samples *)

Lemma requested_positions_app (a b : list event) :
  requested_positions (a ++ b) = requested_positions a ++ requested_positions b.
Proof.
  induction a as [|e a IH]; [reflexivity|].
  destruct e; cbn [app requested_positions]; rewrite IH; reflexivity.
Qed.

Lemma requested_positions_none (evs : list event) :
  forallb (fun e => negb (elevation_request e)) evs = true ->
  requested_positions evs = [].
Proof.
  induction evs as [|e evs IH]; [reflexivity|].
  cbn [forallb]. intros H. apply andb_prop in H. destruct H as [He H].
  destruct e; try discriminate He; cbn [requested_positions]; apply IH, H.
Qed.

(** A call of [SampleElevation] requests the elevation at its position and
    nothing else. *)
Lemma SampleElevation_requests (fuel : nat) (position : Vector2d) (env : Env)
    (t : nat) :
  requested_positions (events (SampleElevation fuel position env t)) = [position].
Proof.
  unfold SampleElevation. rewrite events_bind.
  cbn [emit result events clock app requested_positions].
  rewrite requested_positions_none.
  - destruct position. reflexivity.
  - apply (only_weaken _ not_request_not_elevation
             (SampleElevation_answer_requests_nothing fuel)).
Qed.

(** The loop over the ring requests a prefix of the ring, in order, and all
    of it when every sample succeeds. *)
Lemma sample_ring_requests (fuel : nat) (env : Env) (positions : list Vector2d) :
  forall elevations t,
    let o := sample_ring fuel positions elevations env t in
    (exists n, requested_positions (events o) = firstn n positions) /\
    (forall sampled, result o = Val (Some sampled) ->
       requested_positions (events o) = positions).
Proof.
  induction positions as [|position rest IH]; intros elevations t; cbv zeta;
    cbn [sample_ring].
  - split; [exists 0; reflexivity|reflexivity].
  - rewrite events_bind, result_bind, requested_positions_app,
      SampleElevation_requests.
    destruct (result (SampleElevation fuel position env t)) as [[e|]| | |];
      try (split; [exists 1; reflexivity|discriminate]).
    destruct (IH (elevations ++ [e]) (clock (SampleElevation fuel position env t)))
      as [[n Hn] Hall].
    split.
    + exists (S n). cbn [firstn app]. rewrite Hn. reflexivity.
    + intros sampled Hres. cbn [app]. rewrite (Hall _ Hres). reflexivity.
Qed.

Section Iteration.

Variables cos sin : double -> double.
Variable env : Env.

Lemma GetRobotPosition_found (t : nat) (robot_position : Vector2d) :
  tf_lookupTransform env t = Some robot_position ->
  GetRobotPosition env t =
  {| result := Val robot_position; clock := S t;
     events := [LookupTransform (Some robot_position)] |}.
Proof.
  intros H. unfold GetRobotPosition, bind, ask. cbn. rewrite H. reflexivity.
Qed.

Lemma GetRobotPosition_missing (t : nat) :
  tf_lookupTransform env t = None ->
  GetRobotPosition env t =
  {| result := Exn; clock := S t; events := [LookupTransform None] |}.
Proof.
  intros H. unfold GetRobotPosition, bind, ask. cbn. rewrite H. reflexivity.
Qed.

(** What [sample_surroundings] returns: the ring around the position
    looked up at its entry, and eight elevations. *)
Lemma sample_surroundings_returns (fuel t : nat) (positions : list Vector2d)
    (current_elevation : double) (elevations : list double) :
  result (sample_surroundings cos sin fuel env t)
    = Val (Some (positions, current_elevation, elevations)) ->
  exists robot_position,
    tf_lookupTransform env t = Some robot_position /\
    positions = sample_positions cos sin robot_position /\
    length elevations = 8.
Proof.
  intros Hres.
  pose proof (protocol_sample_surroundings cos sin env fuel t) as Hlen.
  unfold follows in Hlen. rewrite Hres in Hlen.
  destruct Hlen as (q & _ & _ & _ & Hlen).
  revert Hres. unfold sample_surroundings, sample_around. rewrite result_bind.
  destruct (tf_lookupTransform env t) as [robot_position|] eqn:Hlookup.
  2: { rewrite (GetRobotPosition_missing _ Hlookup). discriminate. }
  rewrite (GetRobotPosition_found _ Hlookup). cbn [result clock].
  rewrite result_bind.
  destruct (result (SampleElevation fuel robot_position env (S t)))
    as [[c|]| | |]; try discriminate.
  rewrite result_bind.
  destruct (result (sample_ring _ _ _ _ _)) as [[es|]| | |]; try discriminate.
  cbn [ret result]. intros [= <- _ _]. exists robot_position. auto.
Qed.

(** The elevation requests of [sample_surroundings]: the position looked up
    at its entry, then a prefix of the ring around it. *)
Lemma sample_surroundings_requests (fuel t : nat) (robot_position : Vector2d) :
  tf_lookupTransform env t = Some robot_position ->
  let o := sample_surroundings cos sin fuel env t in
  (exists n,
     requested_positions (events o) =
     firstn n (robot_position :: sample_positions cos sin robot_position)) /\
  (forall surroundings, result o = Val (Some surroundings) ->
     requested_positions (events o) =
     robot_position :: sample_positions cos sin robot_position).
Proof.
  intros Hlookup. cbv zeta. unfold sample_surroundings, sample_around.
  rewrite events_bind, result_bind, (GetRobotPosition_found _ Hlookup).
  cbn [result clock events app requested_positions].
  rewrite events_bind, result_bind, requested_positions_app,
    SampleElevation_requests.
  destruct (result (SampleElevation fuel robot_position env (S t)))
    as [[c|]| | |];
    try (split; [exists 1; reflexivity|discriminate]).
  rewrite events_bind, result_bind, requested_positions_app.
  destruct (sample_ring_requests fuel env
              (sample_positions cos sin robot_position) []
              (clock (SampleElevation fuel robot_position env (S t))))
    as [[n Hn] Hall].
  destruct (result (sample_ring _ _ _ _ _)) as [[es|]| | |] eqn:Hring;
    cbn [ret events result requested_positions]; rewrite ?app_nil_r.
  - split.
    + exists (S n). cbn [firstn app]. rewrite Hn. reflexivity.
    + intros _ _. cbn [app]. rewrite (Hall _ eq_refl). reflexivity.
  - split; [exists (S n); cbn [firstn app]; rewrite Hn; reflexivity|discriminate].
  - split; [exists (S n); cbn [firstn app]; rewrite Hn; reflexivity|discriminate].
  - split; [exists (S n); cbn [firstn app]; rewrite Hn; reflexivity|discriminate].
  - split; [exists (S n); cbn [firstn app]; rewrite Hn; reflexivity|discriminate].
Qed.

(** The elevation requests of an iteration are those of its sampling. *)
Lemma loop_body_requests (fuel t : nat) :
  requested_positions (events (loop_body cos sin fuel env t)) =
  requested_positions (events (sample_surroundings cos sin fuel env t)).
Proof.
  unfold loop_body. rewrite events_bind, requested_positions_app.
  destruct (result (sample_surroundings cos sin fuel env t))
    as [[[[positions c] es]|]| | |]; rewrite ?app_nil_r; try reflexivity.
  rewrite (requested_positions_none
             (events (decide_and_navigate fuel positions c es env _))).
  - apply app_nil_r.
  - apply decide_and_navigate_requests_no_elevation.
Qed.

End Iteration.

(** ** The decision *)

(** No double compares with a NaN, so [std::max_element] keeps a NaN it
    meets first, and moves past one it meets later. *)
Example max_element_nan :
  max_element [S754_nan; double_of_nat 6; double_of_nat 7] = Some 0 /\
  max_element [double_of_nat 6; S754_nan; double_of_nat 7] = Some 2.
Proof. split; reflexivity. Qed.

Lemma SFltb_leb_refl (a b : double) : SFltb a b = true -> SFleb b b = true.
Proof. float_order. Qed.

(** At a peak the decision reports success and nothing else. *)
Lemma decide_at_peak (fuel : nat) (positions : list Vector2d)
    (current_elevation m : double) (elevations : list double) (env : Env)
    (t : nat) :
  maximum_of elevations m ->
  SFleb m current_elevation = true ->
  decide_and_navigate fuel positions current_elevation elevations env t =
  {| result := Val Return; clock := t; events := [GoalSucceed] |}.
Proof.
  intros [Hin Hmax] Hle.
  destruct (@max_element_in_range elevations) as (i & x & Hi & Hx).
  { intros ->. contradiction. }
  unfold decide_and_navigate. rewrite Hi, Hx.
  rewrite (SFleb_trans x m current_elevation); [reflexivity| |exact Hle].
  apply Hmax. apply (nth_error_In _ _ Hx).
Qed.

(** Below a peak the decision asks the navigator to go to the ring position
    of the first maximum. *)
Lemma decide_below_peak (fuel : nat) (positions : list Vector2d)
    (current_elevation m : double) (elevations : list double) (i : nat)
    (goal_position : Vector2d) (env : Env) (t : nat) :
  nth_error elevations i = Some m ->
  nth_error positions i = Some goal_position ->
  SFltb current_elevation m = true ->
  (forall j e, j <> i -> nth_error elevations j = Some e -> SFleb e m = true) ->
  (forall j e, j < i -> nth_error elevations j = Some e -> SFltb e m = true) ->
  exists rest,
    events (decide_and_navigate fuel positions current_elevation elevations env t)
    = Now (node_now env t)
      :: GoToPose (pose_at (node_now env t) goal_position)
           (navigator_go_to_pose env (S t))
      :: rest.
Proof.
  intros Hm Hgoal Hlt Hle Hfirst.
  assert (Hi : max_element elevations = Some i).
  { apply (max_element_first_maximum _ Hm); [|exact Hfirst].
    intros e He. destruct (In_nth_error _ _ He) as [j Hj].
    destruct (Nat.eq_dec j i) as [-> | Hne].
    - rewrite Hm in Hj. injection Hj as <-. apply (SFltb_leb_refl _ _ Hlt).
    - apply (Hle j e Hne Hj). }
  unfold decide_and_navigate. rewrite Hi, Hm, (SFltb_not_leb _ _ Hlt), Hgoal.
  rewrite events_bind. cbn [ask result clock events app].
  rewrite events_bind. cbn [ask result clock events app].
  eexists. reflexivity.
Qed.

(** ** The wait for a sample response *)

Lemma round_ends_first (env : Env) (t : nat) :
  round_ends env t 0 <->
  future_wait_for env t = true \/ rclcpp_ok env (S t) = false \/
  goal_is_canceling env (S (S t)) = true.
Proof.
  unfold round_ends.
  replace (t + 3 * 0) with t by lia.
  replace (t + 1) with (S t) by lia.
  replace (t + 2) with (S (S t)) by lia.
  reflexivity.
Qed.

Lemma round_ends_next (env : Env) (t k : nat) :
  round_ends env t (S k) <-> round_ends env (S (S (S t))) k.
Proof.
  unfold round_ends.
  replace (t + 3 * S k) with (S (S (S t)) + 3 * k) by lia.
  reflexivity.
Qed.

(** The wait returns exactly when one of its first [fuel] rounds ends it. *)
Lemma wait_for_response_returns (env : Env) (fuel : nat) :
  forall t,
    (exists ready, result (wait_for_response fuel env t) = Val ready) <->
    (exists k, k < fuel /\ round_ends env t k).
Proof.
  induction fuel as [|fuel IH]; intros t; cbn [wait_for_response].
  - split; [intros [ready H]; discriminate|intros (k & Hk & _); lia].
  - unfold shutdown_or_canceling.
    rewrite !result_bind. cbn [ask result clock negb].
    destruct (future_wait_for env t) eqn:Hready; cbn [ret result clock].
    { split; [intros _|intros _; eexists; reflexivity].
      exists 0. split; [lia|]. apply round_ends_first. auto. }
    rewrite !result_bind. cbn [ask result clock negb].
    destruct (rclcpp_ok env (S t)) eqn:Hok; cbn [negb ret ask result clock].
    2: { rewrite result_bind. cbn [emit ret result clock].
         split; [intros _|intros _; eexists; reflexivity].
         exists 0. split; [lia|]. apply round_ends_first. auto. }
    destruct (goal_is_canceling env (S (S t))) eqn:Hcanceling.
    { rewrite result_bind. cbn [emit ret result clock].
      split; [intros _|intros _; eexists; reflexivity].
      exists 0. split; [lia|]. apply round_ends_first. auto. }
    rewrite clock_bind. cbn [ask result clock]. rewrite Hok.
    cbn [negb ask clock]. rewrite (IH (S (S (S t)))). split.
    + intros (k & Hk & Hends). exists (S k). split; [lia|].
      apply round_ends_next, Hends.
    + intros (k & Hk & Hends). destruct k as [|k].
      * apply round_ends_first in Hends.
        destruct Hends as [H | [H | H]]; congruence.
      * exists k. split; [lia|]. apply round_ends_next, Hends.
Qed.

(** [SampleElevation] returns exactly when its wait does. *)
Lemma SampleElevation_returns (env : Env) (fuel t : nat) (position : Vector2d) :
  (exists sampled, result (SampleElevation fuel position env t) = Val sampled) <->
  (exists ready, result (wait_for_response fuel env t) = Val ready).
Proof.
  unfold SampleElevation. rewrite !result_bind. cbn [emit result clock].
  destruct (result (wait_for_response fuel env t)) as [[]| | |].
  - rewrite result_bind. cbn [ask result clock].
    destruct (success _); cbn [negb]; rewrite ?result_bind;
      cbn [emit ret result]; split; intros _; eexists; reflexivity.
  - cbn [ret result]. split; intros _; eexists; reflexivity.
  - split; intros [x H]; discriminate.
  - split; intros [x H]; discriminate.
  - split; intros [x H]; discriminate.
Qed.

Section IterationRequests.

Variables cos sin : double -> double.

(** X14.  The ring around a robot position is eight positions: the points at
    distance [look_distance] in the directions [0], [M_PI_4], ...,
    [7 * M_PI_4], in this order.  In an iteration of the search loop that
    looks up [robot_position] at its entry, the elevation requests are, in
    order, a prefix of [robot_position] followed by the ring around
    [robot_position], and all of these nine when the sampling succeeds:
    every ring position is computed from the position looked up in the same
    iteration. *)
Lemma iteration_requests_ring (fuel : nat) (env : Env) (t : nat)
    (robot_position : Vector2d) :
  tf_lookupTransform env t = Some robot_position ->
  sample_positions cos sin robot_position
    = map (ring_position cos sin robot_position) [0; 1; 2; 3; 4; 5; 6; 7] /\
  (exists n,
     requested_positions (events (loop_body cos sin fuel env t))
     = firstn n (robot_position :: sample_positions cos sin robot_position)) /\
  (forall positions c es,
     result (sample_surroundings cos sin fuel env t) = Val (Some (positions, c, es)) ->
     positions = sample_positions cos sin robot_position /\
     requested_positions (events (loop_body cos sin fuel env t))
     = robot_position :: positions).
Proof.
  intros Hlookup.
  destruct (@sample_surroundings_requests cos sin env fuel t _ Hlookup)
    as [Hprefix Hall].
  split; [apply sample_positions_ring|]. split.
  - rewrite loop_body_requests. exact Hprefix.
  - intros positions c es Hres.
    destruct (@sample_surroundings_returns cos sin env fuel t _ _ _ Hres)
      as (p & Hp & -> & _).
    rewrite Hlookup in Hp. injection Hp as <-.
    split; [reflexivity|].
    rewrite loop_body_requests. apply (Hall _ Hres).
Qed.

End IterationRequests.

(** ** The requests of a run, iteration by iteration *)

Lemma firstn_prefix (A : Type) (l1 l2 l : list A) (n : nat) :
  l1 ++ l2 = firstn n l -> l1 = firstn (length l1) l.
Proof.
  intros H.
  assert (Hlen : length l1 <= n).
  { assert (Hn : length (l1 ++ l2) <= n) by (rewrite H; apply firstn_le_length).
    rewrite length_app in Hn. lia. }
  assert (H1 : firstn (length l1) (l1 ++ l2) = l1).
  { rewrite firstn_app, firstn_all, Nat.sub_diag. cbn. apply app_nil_r. }
  rewrite <- H1 at 1. rewrite H, firstn_firstn.
  rewrite Nat.min_l by exact Hlen. reflexivity.
Qed.

Lemma wait_for_response_looks_up_nothing (fuel : nat) :
  only (fun e => negb (position_lookup e)) (wait_for_response fuel).
Proof.
  induction fuel as [|fuel IH]; cbn [wait_for_response]; only_calls.
Qed.

Lemma SampleElevation_looks_up_nothing (fuel : nat) (position : Vector2d) :
  only (fun e => negb (position_lookup e)) (SampleElevation fuel position).
Proof.
  pose proof (wait_for_response_looks_up_nothing fuel).
  unfold SampleElevation. only_calls.
Qed.

Lemma sample_ring_looks_up_nothing (fuel : nat) (positions : list Vector2d) :
  forall elevations,
    only (fun e => negb (position_lookup e))
      (sample_ring fuel positions elevations).
Proof.
  pose proof (SampleElevation_looks_up_nothing fuel).
  induction positions as [|position rest IH]; intros elevations;
    cbn [sample_ring]; only_calls.
Qed.

Lemma running_and_not_canceling_requests_nothing :
  only (fun e => negb (request e)) running_and_not_canceling.
Proof. unfold running_and_not_canceling. only_calls. Qed.

Section Requests.

Variables cos sin : double -> double.

Lemma sample_around_looks_up_nothing (fuel : nat) (robot_position : Vector2d) :
  only (fun e => negb (position_lookup e))
    (sample_around cos sin fuel robot_position).
Proof.
  pose proof (SampleElevation_looks_up_nothing fuel).
  pose proof (sample_ring_looks_up_nothing fuel).
  unfold sample_around. only_calls.
Qed.

(** Calls that request no elevation keep [ring_requests]. *)
Lemma ring_requests_quiet (evs : list event) :
  forallb (fun e => negb (elevation_request e)) evs = true ->
  forall found requested, ring_requests cos sin found requested evs.
Proof.
  induction evs as [|e evs IH]; intros H found requested; [exact I|].
  cbn [forallb] in H. apply andb_prop in H. destruct H as [He H].
  destruct e; try discriminate He; cbn [ring_requests]; apply IH, H.
Qed.

Lemma ring_requests_app (a b : list event) :
  (forall found requested, ring_requests cos sin found requested b) ->
  forall found requested,
    ring_requests cos sin found requested a ->
    ring_requests cos sin found requested (a ++ b).
Proof.
  intros Hb. induction a as [|e a IH]; intros found requested Ha;
    cbn [app]; [apply Hb|].
  destruct e; cbn [ring_requests] in *;
    try (apply IH; exact Ha).
  destruct Ha as [Hreq Ha]. split; [exact Hreq|]. apply IH, Ha.
Qed.

(** Requests that make up a prefix of a position and its ring satisfy
    [ring_requests] after the lookup of that position. *)
Lemma ring_requests_prefix (evs : list event) (robot_position : Vector2d)
    (n : nat) :
  forallb (fun e => negb (position_lookup e)) evs = true ->
  forall requested,
    requested ++ requested_positions evs
    = firstn n (robot_position :: sample_positions cos sin robot_position) ->
    ring_requests cos sin (Some robot_position) requested evs.
Proof.
  induction evs as [|e evs IH]; intros Hno requested Hpre; [exact I|].
  cbn [forallb] in Hno. apply andb_prop in Hno. destruct Hno as [He Hno].
  destruct e; try discriminate He; cbn [ring_requests requested_positions] in *;
    try (apply (IH Hno); exact Hpre).
  assert (Hpre' : (requested ++ [{| vx := x; vy := y |}])
                  ++ requested_positions evs
                  = firstn n (robot_position
                              :: sample_positions cos sin robot_position))
    by (rewrite <- app_assoc; exact Hpre).
  split.
  - exists robot_position. split; [reflexivity|].
    apply (@firstn_prefix _ _ _ _ _ Hpre').
  - apply (IH Hno). exact Hpre'.
Qed.

(** The elevation requests of the samples around a position: the position,
    then a prefix of its ring. *)
Lemma sample_around_requests (fuel : nat) (env : Env) (t : nat)
    (robot_position : Vector2d) :
  exists n,
    requested_positions (events (sample_around cos sin fuel robot_position env t))
    = firstn n (robot_position :: sample_positions cos sin robot_position).
Proof.
  unfold sample_around.
  rewrite events_bind, requested_positions_app, SampleElevation_requests.
  destruct (result (SampleElevation fuel robot_position env t))
    as [[c|]| | |]; try (exists 1; reflexivity).
  rewrite events_bind, requested_positions_app.
  destruct (sample_ring_requests fuel env
              (sample_positions cos sin robot_position) []
              (clock (SampleElevation fuel robot_position env t)))
    as [[n Hn] _].
  exists (S n). cbn [firstn app]. rewrite Hn.
  destruct (result (sample_ring _ _ _ _ _)) as [[es|]| | |];
    cbn [ret events requested_positions]; rewrite ?app_nil_r; reflexivity.
Qed.

Lemma ring_requests_loop_body (fuel : nat) (env : Env) (t : nat) :
  forall found requested,
    ring_requests cos sin found requested (events (loop_body cos sin fuel env t)).
Proof.
  intros found requested. unfold loop_body. rewrite events_bind.
  apply ring_requests_app.
  - destruct (result (sample_surroundings cos sin fuel env t))
      as [[[[positions c] es]|]| | |]; try (intros; exact I).
    apply ring_requests_quiet, decide_and_navigate_requests_no_elevation.
  - unfold sample_surroundings. rewrite events_bind.
    destruct (tf_lookupTransform env t) as [robot_position|] eqn:Hlookup.
    + rewrite (@GetRobotPosition_found env t _ Hlookup).
      cbn [result clock events app ring_requests].
      destruct (sample_around_requests fuel env (S t) robot_position) as [n Hn].
      apply (@ring_requests_prefix _ robot_position n).
      * apply sample_around_looks_up_nothing.
      * exact Hn.
    + rewrite (@GetRobotPosition_missing env t Hlookup). exact I.
Qed.

Lemma ring_requests_search_loop (env : Env) (fuel : nat) :
  forall t found requested,
    ring_requests cos sin found requested
      (events (search_loop cos sin fuel env t)).
Proof.
  induction fuel as [|fuel IH]; intros t found requested;
    cbn [search_loop]; [exact I|].
  rewrite events_bind. apply ring_requests_app.
  - clear found requested. intros found requested.
    destruct (result (running_and_not_canceling env t)) as [[]| | |];
      try exact I.
    rewrite events_bind. apply ring_requests_app.
    + destruct (result (loop_body cos sin fuel env _)) as [[]| | |];
        intros; try exact I. apply IH.
    + apply ring_requests_loop_body.
  - apply ring_requests_quiet.
    apply (only_weaken _ not_request_not_elevation
             running_and_not_canceling_requests_nothing).
Qed.

Lemma ring_requests_execute (fuel : nat) (env : Env) (t : nat) :
  forall found requested,
    ring_requests cos sin found requested (events (execute cos sin fuel env t)).
Proof.
  intros found requested. unfold execute.
  rewrite events_bind. cbn [ask result clock events app ring_requests].
  destruct (elevation_service_is_ready env t); cbn [negb]; [|exact I].
  rewrite events_bind. cbn [ask result clock events app ring_requests].
  destruct (tf_canTransform env (S t)); cbn [negb]; [|exact I].
  rewrite events_bind. cbn [ask result clock events app ring_requests].
  destruct (navigator_server_available env (S (S t))); cbn [negb]; [|exact I].
  unfold try_catch.
  destruct (result (search_loop cos sin fuel env (S (S (S t)))));
    cbn [events]; try apply ring_requests_search_loop.
  apply ring_requests_app; [intros; exact I|].
  apply ring_requests_search_loop.
Qed.

(** [ring_requests] read in the middle of a trace: the lookup and the
    requests it starts from are those of the events before. *)
Lemma ring_requests_after (a b : list event) :
  forall found acc,
    ring_requests cos sin found (requested_positions acc) (a ++ b) ->
    ring_requests cos sin
      (fold_left
         (fun found e =>
            match e with LookupTransform found' => found' | _ => found end)
         a found)
      (requested_positions
         (fold_left
            (fun acc e =>
               match e with LookupTransform _ => [] | _ => acc ++ [e] end)
            a acc))
      b.
Proof.
  induction a as [|e a IH]; intros found acc H; [exact H|].
  cbn [app fold_left].
  destruct e; cbn [ring_requests] in H;
    try (apply IH; rewrite requested_positions_app; cbn [requested_positions];
         rewrite app_nil_r; exact H).
  - apply (IH found0 []). exact H.
  - destruct H as [_ H]. apply IH.
    rewrite requested_positions_app. exact H.
Qed.

End Requests.

(** ** Fuel

    A run that returns does not depend on the fuel left over: more fuel
    gives the same result, events and clock. *)

Lemma bind_more_fuel (A B : Type) (m m' : M A) (k k' : A -> M B) (env : Env)
    (t : nat) :
  result (bind m k env t) <> NoFuel ->
  (result (m env t) <> NoFuel -> m' env t = m env t) ->
  (forall a t', result (k a env t') <> NoFuel -> k' a env t' = k a env t') ->
  bind m' k' env t = bind m k env t.
Proof.
  unfold bind. intros H Hm Hk.
  destruct (result (m env t)) as [a| | |] eqn:Hr; cbn in H;
    try (rewrite Hm, Hr by discriminate; reflexivity).
  - rewrite Hm, Hr by discriminate. rewrite (Hk a _ H). reflexivity.
  - contradiction.
Qed.

Lemma wait_for_response_more_fuel (env : Env) (fuel : nat) :
  forall fuel' t,
    fuel <= fuel' ->
    result (wait_for_response fuel env t) <> NoFuel ->
    wait_for_response fuel' env t = wait_for_response fuel env t.
Proof.
  induction fuel as [|fuel IH]; intros fuel' t Hle H; [contradiction|].
  destruct fuel' as [|fuel']; [lia|]. cbn [wait_for_response] in *.
  apply bind_more_fuel; [exact H|reflexivity|].
  intros [] t1 H1; [reflexivity|].
  apply bind_more_fuel; [exact H1|reflexivity|].
  intros [] t2 H2; [reflexivity|]. apply IH; [lia|exact H2].
Qed.

Lemma SampleElevation_more_fuel (env : Env) (fuel fuel' t : nat)
    (position : Vector2d) :
  fuel <= fuel' ->
  result (SampleElevation fuel position env t) <> NoFuel ->
  SampleElevation fuel' position env t = SampleElevation fuel position env t.
Proof.
  intros Hle H. unfold SampleElevation in *.
  apply bind_more_fuel; [exact H|reflexivity|].
  intros [] t1 H1.
  apply bind_more_fuel; [exact H1| |reflexivity].
  apply wait_for_response_more_fuel, Hle.
Qed.

Lemma sample_ring_more_fuel (env : Env) (fuel fuel' : nat)
    (positions : list Vector2d) :
  fuel <= fuel' ->
  forall elevations t,
    result (sample_ring fuel positions elevations env t) <> NoFuel ->
    sample_ring fuel' positions elevations env t
    = sample_ring fuel positions elevations env t.
Proof.
  intros Hle. induction positions as [|position rest IH];
    intros elevations t H; [reflexivity|].
  cbn [sample_ring] in *.
  apply bind_more_fuel; [exact H|apply SampleElevation_more_fuel, Hle|].
  intros [e|] t1 H1; [apply IH, H1|reflexivity].
Qed.

Lemma wait_for_navigation_more_fuel (env : Env) (fuel : nat) :
  forall fuel' t,
    fuel <= fuel' ->
    result (wait_for_navigation fuel env t) <> NoFuel ->
    wait_for_navigation fuel' env t = wait_for_navigation fuel env t.
Proof.
  induction fuel as [|fuel IH]; intros fuel' t Hle H; [contradiction|].
  destruct fuel' as [|fuel']; [lia|]. cbn [wait_for_navigation] in *.
  apply bind_more_fuel; [exact H|reflexivity|].
  intros [] t1 H1; [reflexivity|].
  apply bind_more_fuel; [exact H1|reflexivity|].
  intros [] t2 H2; [reflexivity|]. apply IH; [lia|exact H2].
Qed.

Section MoreFuel.

Variables cos sin : double -> double.
Variable env : Env.

Lemma loop_body_more_fuel (fuel fuel' t : nat) :
  fuel <= fuel' ->
  result (loop_body cos sin fuel env t) <> NoFuel ->
  loop_body cos sin fuel' env t = loop_body cos sin fuel env t.
Proof.
  intros Hle H. unfold loop_body in *.
  apply bind_more_fuel; [exact H| |].
  - intros H1. unfold sample_surroundings in *.
    apply bind_more_fuel; [exact H1|reflexivity|].
    intros robot_position t1 H2. unfold sample_around in *.
    apply bind_more_fuel; [exact H2|apply SampleElevation_more_fuel, Hle|].
    intros [c|] t2 H3; [|reflexivity].
    apply bind_more_fuel; [exact H3|apply sample_ring_more_fuel, Hle|].
    reflexivity.
  - intros [[[positions c] es]|] t1 H1; [|reflexivity].
    unfold decide_and_navigate in *.
    destruct (max_element es) as [i|]; [|reflexivity].
    destruct (nth_error es i) as [x|]; [|reflexivity].
    destruct (SFleb x c); [reflexivity|].
    destruct (nth_error positions i) as [goal_position|]; [|reflexivity].
    apply bind_more_fuel; [exact H1|reflexivity|].
    intros time t2 H2.
    apply bind_more_fuel; [exact H2|reflexivity|].
    intros [] t3 H3; [|reflexivity]. cbn [negb] in *.
    apply bind_more_fuel;
      [exact H3|apply wait_for_navigation_more_fuel, Hle|reflexivity].
Qed.

Lemma search_loop_more_fuel (fuel : nat) :
  forall fuel' t,
    fuel <= fuel' ->
    result (search_loop cos sin fuel env t) <> NoFuel ->
    search_loop cos sin fuel' env t = search_loop cos sin fuel env t.
Proof.
  induction fuel as [|fuel IH]; intros fuel' t Hle H; [contradiction|].
  destruct fuel' as [|fuel']; [lia|]. cbn [search_loop] in *.
  apply bind_more_fuel; [exact H|reflexivity|].
  intros [] t1 H1; [|reflexivity].
  apply bind_more_fuel; [exact H1|apply loop_body_more_fuel; lia|].
  intros [] t2 H2; [|reflexivity]. apply IH; [lia|exact H2].
Qed.

(** Once [execute] returns with some fuel, it returns the same with more. *)
Lemma execute_more_fuel (fuel fuel' t : nat) :
  fuel <= fuel' ->
  result (execute cos sin fuel env t) <> NoFuel ->
  execute cos sin fuel' env t = execute cos sin fuel env t.
Proof.
  intros Hle H. unfold execute in *.
  apply bind_more_fuel; [exact H|reflexivity|].
  intros [] t1 H1; [|reflexivity]. cbn [negb] in *.
  apply bind_more_fuel; [exact H1|reflexivity|].
  intros [] t2 H2; [|reflexivity]. cbn [negb] in *.
  apply bind_more_fuel; [exact H2|reflexivity|].
  intros [] t3 H3; [|reflexivity]. cbn [negb] in *.
  unfold try_catch in *.
  assert (Hloop : result (search_loop cos sin fuel env t3) <> NoFuel).
  { intros Hr. apply H3. rewrite Hr. exact Hr. }
  rewrite (search_loop_more_fuel t3 Hle Hloop). reflexivity.
Qed.

End MoreFuel.

(** ** A service that never answers *)

(** With an elevation service that never answers and nobody stopping the
    goal, a sample does not return. *)
Lemma SampleElevation_blocks_when_silent (fuel t : nat) (position : Vector2d) :
  result (SampleElevation fuel position silent_service t) = NoFuel.
Proof.
  destruct (SampleElevation_ends silent_service fuel t position)
    as (qf & _ & [[_ H] | [[_ H] | [_ [e H]]]]).
  - exfalso.
    assert (Hret : exists sampled,
               result (SampleElevation fuel position silent_service t)
               = Val sampled)
      by (eexists; exact H).
    apply SampleElevation_returns, wait_for_response_returns in Hret.
    destruct Hret as (k & _ & [Hk | [Hk | Hk]]); discriminate Hk.
  - exact H.
  - exfalso.
    assert (Hret : exists sampled,
               result (SampleElevation fuel position silent_service t)
               = Val sampled)
      by (eexists; exact H).
    apply SampleElevation_returns, wait_for_response_returns in Hret.
    destruct Hret as (k & _ & [Hk | [Hk | Hk]]); discriminate Hk.
Qed.

(** Then the search loop does not return either: it is stuck in its first
    sample. *)
Lemma search_loop_blocks_when_silent (cos sin : double -> double)
    (fuel t : nat) :
  result (search_loop cos sin fuel silent_service t) = NoFuel.
Proof.
  destruct fuel as [|fuel]; [reflexivity|]. cbn [search_loop].
  assert (Hgo : running_and_not_canceling silent_service t
                = {| result := Val true; clock := S (S t);
                     events := [RclcppOk true; IsCanceling false] |})
    by reflexivity.
  rewrite result_bind, Hgo. cbn [result clock].
  rewrite result_bind. unfold loop_body. rewrite result_bind.
  unfold sample_surroundings. rewrite result_bind.
  rewrite (@GetRobotPosition_found silent_service (S (S t)) origin eq_refl).
  cbn [result clock]. unfold sample_around. rewrite result_bind.
  rewrite SampleElevation_blocks_when_silent. reflexivity.
Qed.

Lemma execute_blocks_when_silent (cos sin : double -> double) (fuel t : nat) :
  result (execute cos sin fuel silent_service t) = NoFuel.
Proof.
  pose proof (search_loop_blocks_when_silent cos sin fuel (S (S (S t)))) as H.
  unfold execute. rewrite result_bind. cbn [ask result clock].
  change (elevation_service_is_ready silent_service t) with true.
  cbn [negb]. rewrite result_bind. cbn [ask result clock].
  change (tf_canTransform silent_service (S t)) with true.
  cbn [negb]. rewrite result_bind. cbn [ask result clock].
  change (navigator_server_available silent_service (S (S t))) with true.
  cbn [negb]. unfold try_catch. rewrite H. exact H.
Qed.

(** * The claims *)

(** C1. In an iteration of the search loop whose sampling returned the
    elevation [c] of the robot and the ring elevations [es]: if a maximum
    [m] of [es] is at most [c], the iteration reports Succeeded right after
    the sampling and executes [return]; no navigation is requested in it. *)
Theorem peak_reached (cos sin : double -> double)
    (fuel : nat) (env : Env) (t : nat)
    (positions : list Vector2d) (c m : double) (es : list double) :
  result (sample_surroundings cos sin fuel env t) = Val (Some (positions, c, es)) ->
  maximum_of es m ->
  SFleb m c = true ->
  let o := loop_body cos sin fuel env t in
  result o = Val Return /\
  events o = events (sample_surroundings cos sin fuel env t) ++ [GoalSucceed] /\
  forallb (fun e => negb (navigation_request e)) (events o) = true.
Proof.
  intros Hres Hmax Hle. cbv zeta. unfold loop_body.
  rewrite result_bind, events_bind, Hres.
  rewrite (@decide_at_peak fuel positions c m es env _ Hmax Hle).
  cbn [result events]. split; [reflexivity|]. split; [reflexivity|].
  rewrite forallb_app, sample_surroundings_requests_no_navigation.
  reflexivity.
Qed.

(** C1 on Scenario A: the robot at elevation 5 with the ring at 4, 3, 2, 1,
    0, 1, 2, 3. *)
Lemma peak_reached_on_peak :
  let o := loop_body libm_cos libm_sin 1 on_peak 0 in
  result o = Val Return /\
  events o = events (sample_surroundings libm_cos libm_sin 1 on_peak 0)
             ++ [GoalSucceed] /\
  forallb (fun e => negb (navigation_request e)) (events o) = true.
Proof.
  apply (@peak_reached libm_cos libm_sin 1 on_peak 0
           (sample_positions libm_cos libm_sin origin)
           (double_of_nat 5) (double_of_nat 4)
           (map double_of_nat [4; 3; 2; 1; 0; 1; 2; 3])).
  - vm_compute. reflexivity.
  - split; [left; reflexivity|].
    intros e He. vm_compute in He.
    repeat (destruct He as [<- | He]; [vm_compute; reflexivity|]).
    destruct He.
  - vm_compute. reflexivity.
Defined.

(** C2. In an iteration of the search loop whose sampling returned the
    elevation [c] of the robot and the ring elevations [es]: if the [i]-th
    ring elevation [m] exceeds [c], every other ring elevation is at most
    [m], and every ring elevation before it is less than [m] (so [i] is the
    position of the strict maximum, or the lowest position of a tied
    maximum), the
    next call after the sampling asks the navigator to go to the [i]-th ring
    position around the robot position looked up in this iteration, the
    point at distance [look_distance] in the direction [i * M_PI_4]. *)
Theorem climbs_to_first_maximum (cos sin : double -> double)
    (fuel : nat) (env : Env) (t : nat)
    (positions : list Vector2d) (c m : double) (es : list double) (i : nat) :
  result (sample_surroundings cos sin fuel env t) = Val (Some (positions, c, es)) ->
  nth_error es i = Some m ->
  SFltb c m = true ->
  (forall j e, j <> i -> nth_error es j = Some e -> SFleb e m = true) ->
  (forall j e, j < i -> nth_error es j = Some e -> SFltb e m = true) ->
  exists robot_position time accepted rest,
    tf_lookupTransform env t = Some robot_position /\
    events (loop_body cos sin fuel env t) =
    events (sample_surroundings cos sin fuel env t)
    ++ Now time
       :: GoToPose (pose_at time (ring_position cos sin robot_position i)) accepted
       :: rest.
Proof.
  intros Hres Hm Hlt Hle Hfirst.
  destruct (@sample_surroundings_returns cos sin env fuel t _ _ _ Hres)
    as (robot_position & Hlookup & -> & Hlen).
  assert (Hi : i < 8)
    by (rewrite <- Hlen; apply nth_error_Some; rewrite Hm; discriminate).
  pose proof (@nth_error_sample_positions cos sin robot_position i Hi) as Hgoal.
  unfold loop_body. rewrite events_bind, Hres.
  destruct (@decide_below_peak fuel _ c m es i _ env
              (clock (sample_surroundings cos sin fuel env t))
              Hm Hgoal Hlt Hle Hfirst) as [rest ->].
  exists robot_position. eauto.
Qed.

(** C2 on a ring at 3, 6, 2, 6, 0, 1, 2, 3 around a robot at elevation 5:
    the maximum 6 is tied between the positions 1 and 3, and the navigator
    is sent to position 1. *)
Lemma climbs_to_first_maximum_below_peak :
  exists robot_position time accepted rest,
    tf_lookupTransform below_peak 0 = Some robot_position /\
    events (loop_body libm_cos libm_sin 1 below_peak 0) =
    events (sample_surroundings libm_cos libm_sin 1 below_peak 0)
    ++ Now time
       :: GoToPose
            (pose_at time (ring_position libm_cos libm_sin robot_position 1))
            accepted
       :: rest.
Proof.
  apply (@climbs_to_first_maximum libm_cos libm_sin 1 below_peak 0
           (sample_positions libm_cos libm_sin origin)
           (double_of_nat 5) (double_of_nat 6)
           (map double_of_nat [3; 6; 2; 6; 0; 1; 2; 3]) 1).
  - vm_compute. reflexivity.
  - reflexivity.
  - vm_compute. reflexivity.
  - intros j e Hj He.
    do 8 (destruct j as [|j];
          [try congruence; injection He as <-; vm_compute; reflexivity|]).
    destruct j; discriminate He.
  - intros j e Hj He.
    destruct j as [|j]; [|lia].
    injection He as <-. vm_compute. reflexivity.
Defined.

(** C3. Wherever a run of [execute] requests an elevation: a robot position
    was looked up before (the last lookup before the request is the one at
    the top of the iteration in progress); the ring around that position is
    eight positions, the points at distance [look_distance] from it in the
    directions [0], [M_PI_4], ..., [7 * M_PI_4], in this order; and the
    elevation requests since that lookup, this one included, are a prefix of
    that robot position followed by its ring. *)
Theorem ring_of_this_iteration (cos sin : double -> double)
    (fuel : nat) (env : Env) (t : nat)
    (before rest : list event) (x y : double) :
  events (execute cos sin fuel env t) = before ++ AsyncSendRequest x y :: rest ->
  exists robot_position,
    last_lookup before = Some robot_position /\
    sample_positions cos sin robot_position
      = map (ring_position cos sin robot_position) [0; 1; 2; 3; 4; 5; 6; 7] /\
    let requested :=
      requested_positions (since_lookup before) ++ [{| vx := x; vy := y |}] in
    requested
      = firstn (length requested)
               (robot_position :: sample_positions cos sin robot_position).
Proof.
  intros Hev.
  pose proof (ring_requests_execute cos sin fuel env t None []) as H.
  rewrite Hev in H.
  apply (@ring_requests_after cos sin before _ None []) in H.
  cbn [ring_requests] in H. destruct H as [(robot_position & Hfound & Hreq) _].
  exists robot_position. split; [exact Hfound|].
  split; [apply sample_positions_ring|exact Hreq].
Qed.

(** C3 on Scenario D: the request at the fourth ring position. *)
Lemma ring_of_this_iteration_scenario :
  exists robot_position,
    last_lookup
      (firstn 18
         (events (execute libm_cos libm_sin 5 canceled_while_navigating 0)))
      = Some robot_position /\
    sample_positions libm_cos libm_sin robot_position
      = map (ring_position libm_cos libm_sin robot_position)
            [0; 1; 2; 3; 4; 5; 6; 7] /\
    let requested :=
      requested_positions
        (since_lookup
           (firstn 18
              (events (execute libm_cos libm_sin 5 canceled_while_navigating 0))))
      ++ [ring_position libm_cos libm_sin origin 3] in
    requested
      = firstn (length requested)
               (robot_position :: sample_positions libm_cos libm_sin robot_position).
Proof.
  apply (@ring_of_this_iteration libm_cos libm_sin 5
           canceled_while_navigating 0
           (firstn 18
              (events (execute libm_cos libm_sin 5 canceled_while_navigating 0)))
           (skipn 19
              (events (execute libm_cos libm_sin 5 canceled_while_navigating 0)))
           (vx (ring_position libm_cos libm_sin origin 3))
           (vy (ring_position libm_cos libm_sin origin 3))).
  vm_compute. reflexivity.
Defined.

(** C4, as the code has it.  A call of [SampleElevation] returns exactly when
    some round of its wait ends the wait: the future is ready after the
    100 ms of [wait_for], or the check after a time-out finds
    [rclcpp::ok()] false or the goal canceling.  There is no bound on the
    rounds. *)
Theorem sample_returns_when_a_round_ends (env : Env) (t : nat)
    (position : Vector2d) :
  (exists fuel sampled,
     result (SampleElevation fuel position env t) = Val sampled) <->
  (exists k, round_ends env t k).
Proof.
  split.
  - intros (fuel & Hret). apply SampleElevation_returns in Hret.
    apply wait_for_response_returns in Hret.
    destruct Hret as (k & _ & Hk). exists k. exact Hk.
  - intros (k & Hk). exists (S k).
    apply SampleElevation_returns, wait_for_response_returns.
    exists k. split; [lia|exact Hk].
Qed.

(** C4: the elevation service never answers and nobody cancels, and the call
    of [SampleElevation] never returns. *)
Lemma sample_blocks_on_silent_service :
  blocks_forever (fun fuel => SampleElevation fuel origin) silent_service 0.
Proof.
  intros fuel.
  destruct (SampleElevation_ends silent_service fuel 0 origin)
    as (qf & _ & [[_ H] | [[_ H] | [_ [e H]]]]).
  - exfalso.
    assert (Hret : exists sampled,
               result (SampleElevation fuel origin silent_service 0) = Val sampled)
      by (eexists; exact H).
    apply SampleElevation_returns, wait_for_response_returns in Hret.
    destruct Hret as (k & _ & [Hk | [Hk | Hk]]); discriminate Hk.
  - exact H.
  - exfalso.
    assert (Hret : exists sampled,
               result (SampleElevation fuel origin silent_service 0) = Val sampled)
      by (eexists; exact H).
    apply SampleElevation_returns, wait_for_response_returns in Hret.
    destruct Hret as (k & _ & [Hk | [Hk | Hk]]); discriminate Hk.
Qed.

(** C5. When, in a run of [execute], a wait for the navigator times out and
    the check that follows observes a stop ([rclcpp::ok()] false, or
    [is_canceling()] true), the rest of the run is [navigator_.cancel()]
    followed by [goal_handle->canceled], and [execute] returns. *)
Theorem cancel_during_navigation (cos sin : double -> double)
    (fuel : nat) (env : Env) (t : nat)
    (before observed rest : list event) :
  events (execute cos sin fuel env t)
    = before ++ WaitForCompletion false :: observed ++ rest ->
  stop_observed observed ->
  rest = [NavigatorCancel; GoalCanceled] /\
  result (execute cos sin fuel env t) = Val tt.
Proof.
  intros Hev Hobs.
  destruct (execute_ends cos sin env fuel t) as (qf & Hrun & Hend).
  rewrite Hev in Hrun. apply run_app_inv in Hrun.
  destruct Hrun as (q1 & _ & Hrun).
  apply (run_stop_observed observed rest q1 qf PMustNavCancel _ Hobs) in Hrun;
    [|auto].
  destruct (run_must_nav_cancel _ Hrun) as [-> ->].
  { destruct Hend as [[-> _] | [Hhead _]]; [left|right]; auto. }
  split; [reflexivity|].
  destruct Hend as [[_ Hres] | [Hhead _]]; [exact Hres|discriminate].
Qed.

(** C5 on Scenario D: the navigator accepted the goal and the caller cancels
    before it finishes. *)
Lemma cancel_during_navigation_scenario :
  skipn 38 (events (execute libm_cos libm_sin 5 canceled_while_navigating 0))
    = [NavigatorCancel; GoalCanceled] /\
  result (execute libm_cos libm_sin 5 canceled_while_navigating 0) = Val tt.
Proof.
  apply (@cancel_during_navigation libm_cos libm_sin 5
           canceled_while_navigating 0
           (firstn 35
              (events (execute libm_cos libm_sin 5 canceled_while_navigating 0)))
           [RclcppOk true; IsCanceling true]).
  - vm_compute. reflexivity.
  - right. reflexivity.
Defined.

(** C6. If the elevation service is not ready, or the robot position cannot
    be looked up, or the navigator is not available when [execute] checks
    them, [execute] returns after reporting Aborted: its events are checks of
    preconditions followed by that report, so the search loop is not entered
    and no elevation or navigation request is made. *)
Theorem precondition_failure_aborts (cos sin : double -> double)
    (fuel : nat) (env : Env) (t : nat) :
  elevation_service_is_ready env t = false \/
  tf_canTransform env (S t) = false \/
  navigator_server_available env (S (S t)) = false ->
  let o := execute cos sin fuel env t in
  result o = Val tt /\
  (exists checks,
     events o = checks ++ [GoalAbort] /\
     forallb precondition_check checks = true) /\
  filter request (events o) = [].
Proof.
  intros H. cbv zeta. unfold execute.
  rewrite !result_bind, !events_bind. cbn [ask result clock events].
  destruct (elevation_service_is_ready env t); cbn [negb].
  2: { split; [reflexivity|]. split; [|reflexivity].
       exists [ServiceIsReady false]. split; reflexivity. }
  rewrite !result_bind, !events_bind. cbn [ask result clock events].
  destruct (tf_canTransform env (S t)); cbn [negb].
  2: { split; [reflexivity|]. split; [|reflexivity].
       exists [ServiceIsReady true; CanTransform false]. split; reflexivity. }
  rewrite !result_bind, !events_bind. cbn [ask result clock events].
  destruct (navigator_server_available env (S (S t))); cbn [negb].
  2: { split; [reflexivity|]. split; [|reflexivity].
       exists [ServiceIsReady true; CanTransform true; ServerAvailable false].
       split; reflexivity. }
  destruct H as [H | [H | H]]; discriminate.
Qed.

(** C6 on a goal that starts while the elevation service is not ready. *)
Lemma precondition_failure_aborts_service_down :
  let o := execute libm_cos libm_sin 5 service_down 0 in
  result o = Val tt /\
  (exists checks,
     events o = checks ++ [GoalAbort] /\
     forallb precondition_check checks = true) /\
  filter request (events o) = [].
Proof.
  apply (@precondition_failure_aborts libm_cos libm_sin 5 service_down 0).
  left. reflexivity.
Defined.

(** C7, as the code has it.  A run of [execute] reports at most one outcome:
    its events are [before ++ reported], where [before] holds no report of
    an outcome, and [reported] is exactly one report when [execute] returns
    and empty while it has not returned (the fuel ran out).  The report is
    the last event, so no elevation or navigation request follows it; and
    [execute] lets no exception escape.  An execution that never returns
    reports no outcome. *)
Theorem single_outcome (cos sin : double -> double)
    (fuel : nat) (env : Env) (t : nat) :
  let o := execute cos sin fuel env t in
  exists before reported,
    events o = before ++ reported /\
    forallb (fun e => negb (terminal e)) before = true /\
    match result o with
    | Val _ => exists e, reported = [e] /\ terminal e = true
    | NoFuel => reported = []
    | Exn | Fault => False
    end.
Proof.
  cbv zeta.
  destruct (execute_ends cos sin env fuel t) as (qf & Hrun & Hend).
  destruct (run_terminal_last _ Hrun) as [Hdone Hopen]; [discriminate|].
  destruct Hend as [[-> ->] | [Hhead ->]].
  - destruct (Hdone eq_refl) as (before & e & -> & He & Hb).
    exists before, [e]. eauto.
  - exists (events (execute cos sin fuel env t)), [].
    rewrite app_nil_r. split; [reflexivity|]. split; [|reflexivity].
    apply Hopen, loop_head_not_done, Hhead.
Qed.

(** C7: the elevation service never answers and nobody cancels the goal;
    [execute] never returns, and no outcome is ever reported. *)
Lemma no_outcome_on_silent_service :
  never_reports (execute libm_cos libm_sin) silent_service 0.
Proof.
  intros fuel.
  pose proof (execute_blocks_when_silent libm_cos libm_sin fuel 0) as Hres.
  split; [exact Hres|].
  destruct (execute_ends libm_cos libm_sin silent_service fuel 0)
    as (qf & Hrun & Hend).
  destruct (run_terminal_last _ Hrun) as [_ Hopen]; [discriminate|].
  apply Hopen.
  destruct Hend as [[_ H] | [Hhead _]]; [congruence|].
  intros ->. discriminate Hhead.
Qed.

(** C8, as the code has it.  Wherever a run of [execute] reports Canceled,
    the report ends the run and comes right after a checkpoint observed a
    stop, which is [rclcpp::ok()] false (process shutdown) or
    [is_canceling()] true (the caller's cancellation); only
    [navigator_.cancel()] may stand in between. *)
Theorem canceled_only_after_stop (cos sin : double -> double)
    (fuel : nat) (env : Env) (t : nat)
    (before rest : list event) :
  events (execute cos sin fuel env t) = before ++ GoalCanceled :: rest ->
  rest = [] /\
  exists earlier observed nav,
    before = earlier ++ observed ++ nav /\ stop_observed observed /\
    (nav = [] \/ nav = [NavigatorCancel]).
Proof.
  intros Hev.
  destruct (execute_ends cos sin env fuel t) as (qf & Hrun & _).
  rewrite Hev in Hrun. apply run_app_inv in Hrun.
  destruct Hrun as (q1 & Hbefore & Hrun).
  apply run_cons_inv in Hrun. destruct Hrun as (q2 & Hstep & Hrun).
  step_cases Hstep. split.
  - exact (run_done _ Hrun).
  - apply run_before_canceled, Hbefore.
Qed.

(** C8: the process shuts down while nobody cancels the goal, and the goal
    ends Canceled. *)
Lemma canceled_on_shutdown :
  events (execute libm_cos libm_sin 5 shutting_down 0)
    = [ServiceIsReady true; CanTransform true; ServerAvailable true;
       RclcppOk false; GoalCanceled] /\
  (forall t, goal_is_canceling shutting_down t = false).
Proof.
  split; [vm_compute; reflexivity|intros t; reflexivity].
Qed.

(** C8, as the code has it, on Scenario D. *)
Lemma canceled_only_after_stop_scenario :
  skipn 40 (events (execute libm_cos libm_sin 5 canceled_while_navigating 0))
    = [] /\
  exists earlier observed nav,
    firstn 39 (events (execute libm_cos libm_sin 5 canceled_while_navigating 0))
      = earlier ++ observed ++ nav /\
    stop_observed observed /\
    (nav = [] \/ nav = [NavigatorCancel]).
Proof.
  apply (@canceled_only_after_stop libm_cos libm_sin 5
           canceled_while_navigating 0).
  vm_compute. reflexivity.
Defined.

(** C9. When, in a run of [execute], the elevation service answers a sample
    with [success = false], the rest of the run is [goal_handle->abort]
    alone and [execute] returns: no further sample is requested, and no
    navigation was requested since the position lookup of that iteration. *)
Theorem sample_failure_aborts (cos sin : double -> double)
    (fuel : nat) (env : Env) (t : nat)
    (before rest : list event) (response : Response) :
  events (execute cos sin fuel env t) = before ++ FutureGet response :: rest ->
  success response = false ->
  rest = [GoalAbort] /\
  result (execute cos sin fuel env t) = Val tt /\
  forallb (fun e => negb (navigation_request e)) (since_lookup before) = true.
Proof.
  intros Hev Hfail.
  destruct (execute_ends cos sin env fuel t) as (qf & Hrun & Hend).
  rewrite Hev in Hrun. apply run_app_inv in Hrun.
  destruct Hrun as (q1 & Hbefore & Hrun).
  apply run_cons_inv in Hrun. destruct Hrun as (q2 & Hstep & Hrun).
  step_cases Hstep; [congruence|].
  destruct (run_must_abort _ Hrun) as [-> ->].
  { destruct Hend as [[-> _] | [Hhead _]]; [left|right]; auto. }
  split; [reflexivity|]. split.
  - destruct Hend as [[_ Hres] | [Hhead _]]; [exact Hres|discriminate].
  - apply (run_sampling _ Hbefore). reflexivity.
Qed.

(** C9 on Scenario C: the sample at the robot position fails. *)
Lemma sample_failure_aborts_scenario :
  skipn 9 (events (execute libm_cos libm_sin 5 failing_service 0))
    = [GoalAbort] /\
  result (execute libm_cos libm_sin 5 failing_service 0) = Val tt /\
  forallb (fun e => negb (navigation_request e))
    (since_lookup
       (firstn 8 (events (execute libm_cos libm_sin 5 failing_service 0))))
    = true.
Proof.
  apply (@sample_failure_aborts libm_cos libm_sin 5 failing_service 0
           (firstn 8 (events (execute libm_cos libm_sin 5 failing_service 0)))
           (skipn 9 (events (execute libm_cos libm_sin 5 failing_service 0)))
           {| success := false; elevation := dzero |}).
  - vm_compute. reflexivity.
  - reflexivity.
Defined.

(** C10. When a wait for a sample response times out and the check that
    follows observes a stop ([rclcpp::ok()] false, or [is_canceling()]
    true): inside [SampleElevation] the rest of the call is
    [goal_handle->canceled] alone and the call returns false; in a run of
    [execute] the rest of the run is that one report, so the outcome is
    Canceled, nothing is aborted and no request follows, and [execute]
    returns. *)
Theorem cancel_during_sample (cos sin : double -> double)
    (fuel : nat) (env : Env) (t : nat)
    (before observed rest : list event)
    (fuel' : nat) (env' : Env) (t' : nat) (position : Vector2d)
    (before' rest' : list event) :
  stop_observed observed ->
  events (SampleElevation fuel' position env' t')
    = before' ++ WaitFor false :: observed ++ rest' ->
  events (execute cos sin fuel env t)
    = before ++ WaitFor false :: observed ++ rest ->
  (rest' = [GoalCanceled] /\
   result (SampleElevation fuel' position env' t') = Val None) /\
  (rest = [GoalCanceled] /\
   result (execute cos sin fuel env t) = Val tt).
Proof.
  intros Hobs Hev' Hev. split.
  - destruct (SampleElevation_ends env' fuel' t' position) as (qf & Hrun & Hend).
    rewrite Hev' in Hrun. apply run_app_inv in Hrun.
    destruct Hrun as (q1 & _ & Hrun).
    apply (run_stop_observed observed rest' q1 qf PMustCanceled _ Hobs) in Hrun;
      [|auto].
    destruct rest' as [|e rest'].
    { injection Hrun as <-.
      destruct Hend as [[? _] | [[? _] | [? _]]]; discriminate. }
    apply run_cons_inv in Hrun. destruct Hrun as (q2 & Hstep & Hrun).
    destruct e; try discriminate Hstep. injection Hstep as <-.
    pose proof (run_done _ Hrun) as ->. injection Hrun as <-.
    split; [reflexivity|].
    destruct Hend as [[_ Hres] | [[? _] | [? _]]];
      [exact Hres|discriminate|discriminate].
  - destruct (execute_ends cos sin env fuel t) as (qf & Hrun & Hend).
    rewrite Hev in Hrun. apply run_app_inv in Hrun.
    destruct Hrun as (q1 & _ & Hrun).
    apply (run_stop_observed observed rest q1 qf PMustCanceled _ Hobs) in Hrun;
      [|auto].
    destruct (run_must_canceled _ Hrun) as [-> ->].
    { destruct Hend as [[-> _] | [Hhead _]]; [left|right]; auto. }
    split; [reflexivity|].
    destruct Hend as [[_ Hres] | [Hhead _]]; [exact Hres|discriminate].
Qed.

(** C10 on a caller that cancels while the elevation service does not
    answer. *)
Lemma cancel_during_sample_scenario :
  (skipn 10 (events (SampleElevation 5 origin canceled_while_sampling 0))
     = [GoalCanceled] /\
   result (SampleElevation 5 origin canceled_while_sampling 0) = Val None) /\
  (skipn 10 (events (execute libm_cos libm_sin 5 canceled_while_sampling 0))
     = [GoalCanceled] /\
   result (execute libm_cos libm_sin 5 canceled_while_sampling 0) = Val tt).
Proof.
  apply (@cancel_during_sample libm_cos libm_sin 5 canceled_while_sampling 0
           (firstn 7
              (events (execute libm_cos libm_sin 5 canceled_while_sampling 0)))
           [RclcppOk true; IsCanceling true]
           (skipn 10
              (events (execute libm_cos libm_sin 5 canceled_while_sampling 0)))
           5 canceled_while_sampling 0 origin
           (firstn 7 (events (SampleElevation 5 origin canceled_while_sampling 0)))
           (skipn 10 (events (SampleElevation 5 origin canceled_while_sampling 0)))).
  - right. reflexivity.
  - vm_compute. reflexivity.
  - vm_compute. reflexivity.
Defined.

(** * Further properties of the node *)

(** ** Failures of the navigator and of the position lookup *)

(** X1.  When the navigator reports that a finished navigation did not succeed
    (line 197), the rest of the run of [execute] is [goal_handle->abort]
    alone, and [execute] returns. *)
Theorem navigation_failure_aborts (cos sin : double -> double)
    (fuel : nat) (env : Env) (t : nat) (before rest : list event) :
  events (execute cos sin fuel env t)
    = before ++ NavigatorSucceeded false :: rest ->
  rest = [GoalAbort] /\ result (execute cos sin fuel env t) = Val tt.
Proof.
  intros Hev.
  destruct (execute_ends cos sin env fuel t) as (qf & Hrun & Hend).
  rewrite Hev in Hrun. apply run_app_inv in Hrun.
  destruct Hrun as (q1 & _ & Hrun).
  apply run_cons_inv in Hrun. destruct Hrun as (q2 & Hstep & Hrun).
  step_cases Hstep.
  destruct (run_must_abort _ Hrun) as [-> ->].
  { destruct Hend as [[-> _] | [Hhead _]]; [left|right]; auto. }
  split; [reflexivity|].
  destruct Hend as [[_ Hres] | [Hhead _]]; [exact Hres|discriminate].
Qed.

Lemma navigation_failure_aborts_scenario :
  skipn 37 (events (execute libm_cos libm_sin 5 navigation_fails 0))
    = [GoalAbort] /\
  result (execute libm_cos libm_sin 5 navigation_fails 0) = Val tt.
Proof.
  apply (@navigation_failure_aborts libm_cos libm_sin 5 navigation_fails 0
           (firstn 36 (events (execute libm_cos libm_sin 5 navigation_fails 0)))).
  vm_compute. reflexivity.
Defined.

(** X2.  When the navigator rejects the goal pose (line 180), the rest of the run
    of [execute] is [goal_handle->abort] alone, and [execute] returns: the
    navigator is not waited for and not cancelled. *)
Theorem navigation_rejection_aborts (cos sin : double -> double)
    (fuel : nat) (env : Env) (t : nat) (before rest : list event)
    (goal_pose : PoseStamped) :
  events (execute cos sin fuel env t)
    = before ++ GoToPose goal_pose false :: rest ->
  rest = [GoalAbort] /\ result (execute cos sin fuel env t) = Val tt.
Proof.
  intros Hev.
  destruct (execute_ends cos sin env fuel t) as (qf & Hrun & Hend).
  rewrite Hev in Hrun. apply run_app_inv in Hrun.
  destruct Hrun as (q1 & _ & Hrun).
  apply run_cons_inv in Hrun. destruct Hrun as (q2 & Hstep & Hrun).
  step_cases Hstep.
  destruct (run_must_abort _ Hrun) as [-> ->].
  { destruct Hend as [[-> _] | [Hhead _]]; [left|right]; auto. }
  split; [reflexivity|].
  destruct Hend as [[_ Hres] | [Hhead _]]; [exact Hres|discriminate].
Qed.

Lemma navigation_rejection_aborts_scenario :
  skipn 35 (events (execute libm_cos libm_sin 5 navigation_rejected 0))
    = [GoalAbort] /\
  result (execute libm_cos libm_sin 5 navigation_rejected 0) = Val tt.
Proof.
  apply (@navigation_rejection_aborts libm_cos libm_sin 5 navigation_rejected 0
           (firstn 34
              (events (execute libm_cos libm_sin 5 navigation_rejected 0)))
           _ (pose_at 0 (ring_position libm_cos libm_sin origin 0))).
  vm_compute. reflexivity.
Defined.

(** X3.  When [lookupTransform] throws in the search loop, [execute] catches the
    exception (line 206): the rest of the run is [goal_handle->abort] alone,
    and [execute] returns normally. *)
Theorem lookup_failure_aborts (cos sin : double -> double)
    (fuel : nat) (env : Env) (t : nat) (before rest : list event) :
  events (execute cos sin fuel env t) = before ++ LookupTransform None :: rest ->
  rest = [GoalAbort] /\ result (execute cos sin fuel env t) = Val tt.
Proof.
  intros Hev.
  destruct (execute_ends cos sin env fuel t) as (qf & Hrun & Hend).
  rewrite Hev in Hrun. apply run_app_inv in Hrun.
  destruct Hrun as (q1 & _ & Hrun).
  apply run_cons_inv in Hrun. destruct Hrun as (q2 & Hstep & Hrun).
  step_cases Hstep.
  destruct (run_must_abort _ Hrun) as [-> ->].
  { destruct Hend as [[-> _] | [Hhead _]]; [left|right]; auto. }
  split; [reflexivity|].
  destruct Hend as [[_ Hres] | [Hhead _]]; [exact Hres|discriminate].
Qed.

Lemma lookup_failure_aborts_scenario :
  skipn 6 (events (execute libm_cos libm_sin 5 lost_robot 0)) = [GoalAbort] /\
  result (execute libm_cos libm_sin 5 lost_robot 0) = Val tt.
Proof.
  apply (@lookup_failure_aborts libm_cos libm_sin 5 lost_robot 0
           (firstn 5 (events (execute libm_cos libm_sin 5 lost_robot 0)))).
  vm_compute. reflexivity.
Defined.

(** ** The test of the search loop *)

(** X4.  When the test of the search loop (line 108), made after the
    preconditions or after a navigation that succeeded, observes a stop, the
    rest of the run of [execute] is [goal_handle->canceled] alone (line
    204), and [execute] returns: no position is looked up and the navigator
    is not cancelled. *)
Theorem stop_at_loop_test_cancels (cos sin : double -> double)
    (fuel : nat) (env : Env) (t : nat) (before observed rest : list event)
    (e : event) :
  events (execute cos sin fuel env t) = before ++ e :: observed ++ rest ->
  e = ServerAvailable true \/ e = NavigatorSucceeded true ->
  stop_observed observed ->
  rest = [GoalCanceled] /\ result (execute cos sin fuel env t) = Val tt.
Proof.
  intros Hev He Hobs.
  destruct (execute_ends cos sin env fuel t) as (qf & Hrun & Hend).
  rewrite Hev in Hrun. apply run_app_inv in Hrun.
  destruct Hrun as (q1 & _ & Hrun).
  apply run_cons_inv in Hrun. destruct Hrun as (q2 & Hstep & Hrun).
  assert (Hdue : run PMustCanceled rest = Some qf).
  { destruct He as [-> | ->]; step_cases Hstep;
      destruct Hobs as [-> | ->]; cbn in Hrun; exact Hrun. }
  destruct (run_must_canceled _ Hdue) as [-> ->].
  { destruct Hend as [[-> _] | [Hhead _]]; [left|right]; auto. }
  split; [reflexivity|].
  destruct Hend as [[_ Hres] | [Hhead _]]; [exact Hres|discriminate].
Qed.

Lemma stop_at_loop_test_cancels_scenario :
  skipn 4 (events (execute libm_cos libm_sin 5 shutting_down 0))
    = [GoalCanceled] /\
  result (execute libm_cos libm_sin 5 shutting_down 0) = Val tt.
Proof.
  apply (@stop_at_loop_test_cancels libm_cos libm_sin 5 shutting_down 0
           (firstn 2 (events (execute libm_cos libm_sin 5 shutting_down 0)))
           [RclcppOk false] _ (ServerAvailable true)).
  - vm_compute. reflexivity.
  - left. reflexivity.
  - left. reflexivity.
Defined.

(** X5.  When a navigation succeeded and the test of the search loop finds the
    process running and the goal not canceling, the next call of the run is
    a new lookup of the robot position: the next iteration starts from the
    position reached, and the run does not end there. *)
Theorem climb_continues_with_lookup (cos sin : double -> double)
    (fuel : nat) (env : Env) (t : nat) (before rest : list event) :
  events (execute cos sin fuel env t)
    = before
      ++ NavigatorSucceeded true :: RclcppOk true :: IsCanceling false :: rest ->
  exists found rest', rest = LookupTransform found :: rest'.
Proof.
  intros Hev.
  destruct (execute_ends cos sin env fuel t) as (qf & Hrun & Hend).
  rewrite Hev in Hrun. apply run_app_inv in Hrun.
  destruct Hrun as (q1 & _ & Hrun).
  apply run_cons_inv in Hrun. destruct Hrun as (q2 & Hstep & Hrun).
  step_cases Hstep. cbn in Hrun.
  destruct rest as [|e rest].
  - injection Hrun as <-.
    destruct Hend as [[? _] | [? _]]; discriminate.
  - apply run_cons_inv in Hrun. destruct Hrun as (q3 & Hstep & _).
    destruct e; try discriminate Hstep. eauto.
Qed.

Lemma climb_continues_with_lookup_scenario :
  exists found rest',
    skipn 39 (events (execute libm_cos libm_sin 5 one_climb 0))
    = LookupTransform found :: rest'.
Proof.
  apply (@climb_continues_with_lookup libm_cos libm_sin 5 one_climb 0
           (firstn 36 (events (execute libm_cos libm_sin 5 one_climb 0)))).
  vm_compute. reflexivity.
Defined.

(** ** One request at a time *)

Lemma run_closing (evs : list event) :
  forall q q', closing q = true -> run q evs = Some q' -> closing q' = true.
Proof.
  induction evs as [|e evs IH]; intros q q' Hq Hrun.
  - injection Hrun as <-. exact Hq.
  - apply run_cons_inv in Hrun. destruct Hrun as (q1 & Hstep & Hrun).
    apply (IH q1 q'); [|exact Hrun].
    destruct q; try discriminate Hq; destruct e; try discriminate Hstep;
      injection Hstep as <-; reflexivity.
Qed.

(** While a sample request is outstanding, the run waits for its response:
    it goes on only through a successful response. *)
Lemma run_awaiting_response (mid : list event) :
  forall q q',
    awaiting_response q = true -> run q mid = Some q' ->
    (exists r, In (FutureGet r) mid /\ success r = true) \/
    awaiting_response q' = true \/ closing q' = true.
Proof.
  induction mid as [|e mid IH]; intros q q' Hq Hrun.
  - injection Hrun as <-. auto.
  - apply run_cons_inv in Hrun. destruct Hrun as (q1 & Hstep & Hrun).
    assert (Hq1 : (exists r, e = FutureGet r /\ success r = true)
                  \/ awaiting_response q1 = true \/ closing q1 = true).
    { destruct q; try discriminate Hq; destruct e; try discriminate Hstep;
        cbn in Hstep;
        repeat match type of Hstep with
        | context [if ?b then _ else _] => destruct b eqn:?
        end; injection Hstep as <-; eauto. }
    destruct Hq1 as [(r & -> & Hr) | [Hq1 | Hq1]].
    + left. exists r. split; [left; reflexivity|exact Hr].
    + destruct (IH q1 q' Hq1 Hrun) as [(r & Hin & Hr) | H]; [|auto].
      left. exists r. split; [right; exact Hin|exact Hr].
    + right. right. apply (run_closing _ _ Hq1 Hrun).
Qed.

(** While a navigation is outstanding, the run waits for it: it goes on
    only through a navigation that succeeded. *)
Lemma run_navigating (mid : list event) :
  forall q q',
    navigating q = true -> run q mid = Some q' ->
    In (NavigatorSucceeded true) mid \/
    navigating q' = true \/ closing q' = true.
Proof.
  induction mid as [|e mid IH]; intros q q' Hq Hrun.
  - injection Hrun as <-. auto.
  - apply run_cons_inv in Hrun. destruct Hrun as (q1 & Hstep & Hrun).
    assert (Hq1 : e = NavigatorSucceeded true
                  \/ navigating q1 = true \/ closing q1 = true).
    { destruct q; try discriminate Hq; destruct e; try discriminate Hstep;
        cbn in Hstep;
        repeat match type of Hstep with
        | context [if ?b then _ else _] => destruct b eqn:?
        end; injection Hstep as <-; auto. }
    destruct Hq1 as [-> | [Hq1 | Hq1]].
    + left. left. reflexivity.
    + destruct (IH q1 q' Hq1 Hrun) as [Hin | H]; [|auto].
      left. right. exact Hin.
    + right. right. apply (run_closing _ _ Hq1 Hrun).
Qed.

(** X6.  Sampling is sequential: between two elevation requests of a run of
    [execute], the response to the first was received, with
    [success = true].  No request is sent while another is outstanding. *)
Theorem one_sample_at_a_time (cos sin : double -> double)
    (fuel : nat) (env : Env) (t : nat) (before mid rest : list event)
    (x y x' y' : double) :
  events (execute cos sin fuel env t)
    = before ++ AsyncSendRequest x y :: mid ++ AsyncSendRequest x' y' :: rest ->
  exists response, In (FutureGet response) mid /\ success response = true.
Proof.
  intros Hev.
  destruct (execute_ends cos sin env fuel t) as (qf & Hrun & _).
  rewrite Hev in Hrun. apply run_app_inv in Hrun.
  destruct Hrun as (q1 & _ & Hrun).
  apply run_cons_inv in Hrun. destruct Hrun as (q2 & Hstep & Hrun).
  apply run_app_inv in Hrun. destruct Hrun as (q3 & Hmid & Hrun).
  apply run_cons_inv in Hrun. destruct Hrun as (q4 & Hstep' & _).
  assert (Hq2 : awaiting_response q2 = true) by (step_cases Hstep; reflexivity).
  destruct (run_awaiting_response _ _ Hq2 Hmid) as [H | [H | H]];
    [exact H| |]; step_cases Hstep'; discriminate H.
Qed.

Lemma one_sample_at_a_time_scenario :
  exists response,
    In (FutureGet response)
       (firstn 2 (skipn 7 (events (execute libm_cos libm_sin 5 one_climb 0))))
    /\ success response = true.
Proof.
  apply (@one_sample_at_a_time libm_cos libm_sin 5 one_climb 0
           (firstn 6 (events (execute libm_cos libm_sin 5 one_climb 0)))
           _
           (skipn 10 (events (execute libm_cos libm_sin 5 one_climb 0)))
           (vx origin) (vy origin)
           (vx (ring_position libm_cos libm_sin origin 0))
           (vy (ring_position libm_cos libm_sin origin 0))).
  vm_compute. reflexivity.
Defined.

(** X7.  Navigation is sequential: between two navigation requests of a run of
    [execute], the first was accepted and the navigator reported that it
    succeeded.  No goal pose is sent while a navigation is outstanding. *)
Theorem one_navigation_at_a_time (cos sin : double -> double)
    (fuel : nat) (env : Env) (t : nat) (before mid rest : list event)
    (goal_pose goal_pose' : PoseStamped) (accepted accepted' : bool) :
  events (execute cos sin fuel env t)
    = before ++ GoToPose goal_pose accepted
             :: mid ++ GoToPose goal_pose' accepted' :: rest ->
  accepted = true /\ In (NavigatorSucceeded true) mid.
Proof.
  intros Hev.
  destruct (execute_ends cos sin env fuel t) as (qf & Hrun & _).
  rewrite Hev in Hrun. apply run_app_inv in Hrun.
  destruct Hrun as (q1 & _ & Hrun).
  apply run_cons_inv in Hrun. destruct Hrun as (q2 & Hstep & Hrun).
  apply run_app_inv in Hrun. destruct Hrun as (q3 & Hmid & Hrun).
  apply run_cons_inv in Hrun. destruct Hrun as (q4 & Hstep' & _).
  assert (Hq3 : q3 = PStamped).
  { destruct q3; try discriminate Hstep'. reflexivity. }
  subst q3.
  destruct q1; try discriminate Hstep. cbn in Hstep.
  destruct accepted; injection Hstep as <-.
  - split; [reflexivity|].
    destruct (run_navigating _ _ (eq_refl : navigating PPoll = true) Hmid)
      as [H | [H | H]]; [exact H|discriminate H|discriminate H].
  - pose proof (run_closing _ _ (eq_refl : closing PMustAbort = true) Hmid) as H.
    discriminate H.
Qed.

Lemma one_navigation_at_a_time_scenario :
  true = true /\
  In (NavigatorSucceeded true)
     (firstn 33 (skipn 35 (events (execute libm_cos libm_sin 5 two_climbs 0)))).
Proof.
  apply (@one_navigation_at_a_time libm_cos libm_sin 5 two_climbs 0
           (firstn 34 (events (execute libm_cos libm_sin 5 two_climbs 0)))
           _
           (skipn 69 (events (execute libm_cos libm_sin 5 two_climbs 0)))
           (pose_at 0 (ring_position libm_cos libm_sin origin 0))
           (pose_at 0 (ring_position libm_cos libm_sin origin 0))
           true true).
  vm_compute. reflexivity.
Defined.

(** ** What leads to an abort *)

(** X8.  [goal_handle->abort] is only called right after an answer that is a
    failure: a precondition that does not hold, a position lookup that
    throws, a sample response with [success = false], a goal pose that the
    navigator rejects, or a navigation that did not succeed. *)
Theorem abort_has_a_cause (cos sin : double -> double)
    (fuel : nat) (env : Env) (t : nat) (before rest : list event) :
  events (execute cos sin fuel env t) = before ++ GoalAbort :: rest ->
  exists earlier cause,
    before = earlier ++ [cause] /\ abort_cause cause = true.
Proof.
  intros Hev.
  destruct (execute_ends cos sin env fuel t) as (qf & Hrun & _).
  rewrite Hev in Hrun. apply run_app_inv in Hrun.
  destruct Hrun as (q1 & Hbefore & Hrun).
  apply run_cons_inv in Hrun. destruct Hrun as (q2 & Hstep & _).
  assert (q1 = PMustAbort) as ->
    by (destruct q1; try discriminate Hstep; reflexivity).
  destruct (run_last before Hbefore) as (earlier & cause & q' & -> & _ & Hcause);
    [discriminate|].
  exists earlier, cause. split; [reflexivity|].
  destruct cause; step_cases Hcause; cbn [abort_cause negb]; try reflexivity.
  match goal with H : success _ = false |- _ => rewrite H end. reflexivity.
Qed.

Lemma abort_has_a_cause_scenario :
  exists earlier cause,
    firstn 35 (events (execute libm_cos libm_sin 5 navigation_rejected 0))
    = earlier ++ [cause] /\ abort_cause cause = true.
Proof.
  apply (@abort_has_a_cause libm_cos libm_sin 5 navigation_rejected 0 _ []).
  vm_compute. reflexivity.
Defined.

(** X9.  [execute] has no undefined behaviour: [std::max_element] is never
    called on an empty range, and the iterator it returns is always inside
    the eight elevations and the eight positions of the ring.  And the
    exception of [lookupTransform] never escapes [execute]. *)
Theorem execute_is_safe (cos sin : double -> double)
    (fuel : nat) (env : Env) (t : nat) :
  result (execute cos sin fuel env t) <> Exn /\
  result (execute cos sin fuel env t) <> Fault.
Proof.
  destruct (execute_ends cos sin env fuel t) as (qf & _ & [[_ ->] | [_ ->]]);
    split; discriminate.
Qed.

(** ** The wait for the navigator *)

Lemma poll_ends_first (env : Env) (t : nat) :
  poll_ends env t 0 <->
  navigator_wait_for_completion env t = true \/ rclcpp_ok env (S t) = false \/
  goal_is_canceling env (S (S t)) = true.
Proof.
  unfold poll_ends.
  replace (t + 3 * 0) with t by lia.
  replace (t + 1) with (S t) by lia.
  replace (t + 2) with (S (S t)) by lia.
  reflexivity.
Qed.

Lemma poll_ends_next (env : Env) (t k : nat) :
  poll_ends env t (S k) <-> poll_ends env (S (S (S t))) k.
Proof.
  unfold poll_ends.
  replace (t + 3 * S k) with (S (S (S t)) + 3 * k) by lia.
  reflexivity.
Qed.

(** The wait returns exactly when one of its first [fuel] rounds ends it. *)
Lemma wait_for_navigation_returns (env : Env) (fuel : nat) :
  forall t,
    (exists finished, result (wait_for_navigation fuel env t) = Val finished) <->
    (exists k, k < fuel /\ poll_ends env t k).
Proof.
  induction fuel as [|fuel IH]; intros t; cbn [wait_for_navigation].
  - split; [intros [finished H]; discriminate|intros (k & Hk & _); lia].
  - unfold shutdown_or_canceling.
    rewrite !result_bind. cbn [ask result clock negb].
    destruct (navigator_wait_for_completion env t) eqn:Hfinished;
      cbn [ret result clock].
    { split; [intros _|intros _; eexists; reflexivity].
      exists 0. split; [lia|]. apply poll_ends_first. auto. }
    rewrite !result_bind. cbn [ask result clock negb].
    destruct (rclcpp_ok env (S t)) eqn:Hok; cbn [negb ret ask result clock].
    2: { rewrite !result_bind. cbn [emit ret result clock].
         split; [intros _|intros _; eexists; reflexivity].
         exists 0. split; [lia|]. apply poll_ends_first. auto. }
    destruct (goal_is_canceling env (S (S t))) eqn:Hcanceling.
    { rewrite !result_bind. cbn [emit ret result clock].
      split; [intros _|intros _; eexists; reflexivity].
      exists 0. split; [lia|]. apply poll_ends_first. auto. }
    rewrite clock_bind. cbn [ask result clock]. rewrite Hok.
    cbn [negb ask clock]. rewrite (IH (S (S (S t)))). split.
    + intros (k & Hk & Hends). exists (S k). split; [lia|].
      apply poll_ends_next, Hends.
    + intros (k & Hk & Hends). destruct k as [|k].
      * apply poll_ends_first in Hends.
        destruct Hends as [H | [H | H]]; congruence.
      * exists k. split; [lia|]. apply poll_ends_next, Hends.
Qed.

(** X10.  The wait for the navigator (lines 187-195) has no deadline of its own:
    it returns exactly when some round of it ends it, because
    [wait_for_completion] reports the navigation finished, or because the
    check after a time-out finds [rclcpp::ok()] false or the goal
    canceling. *)
Theorem navigation_wait_returns_when_a_round_ends (env : Env) (t : nat) :
  (exists fuel finished,
     result (wait_for_navigation fuel env t) = Val finished) <->
  (exists k, poll_ends env t k).
Proof.
  split.
  - intros (fuel & Hret). apply wait_for_navigation_returns in Hret.
    destruct Hret as (k & _ & Hk). exists k. exact Hk.
  - intros (k & Hk). exists (S k).
    apply wait_for_navigation_returns.
    exists k. split; [lia|exact Hk].
Qed.

(** ** The contract of [SampleElevation] *)

Lemma wait_for_response_never_succeeds (fuel : nat) :
  only (fun e => match e with GoalSucceed => false | _ => true end)
    (wait_for_response fuel).
Proof.
  induction fuel as [|fuel IH]; cbn [wait_for_response]; only_calls.
Qed.

Lemma SampleElevation_never_succeeds (fuel : nat) (position : Vector2d) :
  only (fun e => match e with GoalSucceed => false | _ => true end)
    (SampleElevation fuel position).
Proof.
  pose proof (wait_for_response_never_succeeds fuel).
  unfold SampleElevation. only_calls.
Qed.

(** X11.  A call of [SampleElevation] sends one request, for its position.  When
    it returns true, with an elevation, no outcome of the goal was reported
    and the elevation is that of the response, received last, with
    [success = true].  When it returns false, it has reported the outcome
    itself, once and as its last call: [abort] or [canceled].  It throws
    nothing. *)
Theorem SampleElevation_reports_iff_it_fails (env : Env) (fuel t : nat)
    (position : Vector2d) :
  let o := SampleElevation fuel position env t in
  requested_positions (events o) = [position] /\
  match result o with
  | Val (Some e) =>
      forallb (fun e => negb (terminal e)) (events o) = true /\
      exists before,
        events o = before ++ [FutureGet {| success := true; elevation := e |}]
  | Val None =>
      exists before report,
        events o = before ++ [report] /\
        (report = GoalAbort \/ report = GoalCanceled) /\
        forallb (fun e => negb (terminal e)) before = true
  | NoFuel => forallb (fun e => negb (terminal e)) (events o) = true
  | Exn | Fault => False
  end.
Proof.
  cbv zeta. split; [apply SampleElevation_requests|].
  destruct (SampleElevation_ends env fuel t position) as (qf & Hrun & Hend).
  cbv zeta in Hrun, Hend.
  destruct (run_terminal_last _ Hrun) as [Hdone Hopen]; [discriminate|].
  destruct Hend as [[-> Hres] | [[Hhead Hres] | [-> [e Hres]]]]; rewrite Hres.
  - destruct (Hdone eq_refl) as (before & report & Hev & Hterm & Hbefore).
    exists before, report. split; [exact Hev|]. split; [|exact Hbefore].
    pose proof (SampleElevation_never_succeeds fuel position env t) as Hno.
    rewrite Hev, forallb_app in Hno. apply andb_prop in Hno.
    destruct Hno as [_ Hno]. cbn [forallb] in Hno.
    destruct report; try discriminate Hterm; try discriminate Hno; auto.
  - apply Hopen. intros ->. discriminate Hhead.
  - split; [apply Hopen; discriminate|].
    revert Hres. unfold SampleElevation.
    rewrite !events_bind, !result_bind. cbn [emit result clock events].
    destruct (result (wait_for_response fuel env t)) as [[]| | |];
      try discriminate.
    rewrite !events_bind, !result_bind. cbn [ask result clock events].
    destruct (future_get env _) as [ok elev]. cbn [success elevation].
    destruct ok; cbn [negb].
    + cbn [ret result events]. intros [= <-].
      exists (AsyncSendRequest (vx position) (vy position)
              :: events (wait_for_response fuel env t)).
      reflexivity.
    + rewrite result_bind. cbn [emit ret result]. discriminate.
Qed.

(** ** The decision of an iteration, read from a run *)

Lemma SFltb_above (b e x : double) :
  SFltb b e = true -> SFltb b x = false -> SFltb e x = false.
Proof. float_order. Qed.

Lemma SFleb_above (b e x : double) :
  SFltb b e = true -> SFltb b x = false -> SFleb e x = false.
Proof. float_order. Qed.

Lemma SFltb_irrefl (a : double) : SFltb a a = false.
Proof. float_order. Qed.

Lemma SFltb_below (m c e : double) :
  SFleb m c = true -> SFltb m e = false -> SFltb c e = false.
Proof. float_order. Qed.

Lemma SFleb_number (m c : double) : SFleb m c = true -> SFleb c c = true.
Proof. float_order. Qed.

(** The element [std::max_element] returns: no element exceeds it, and
    every element before it is less than it or a NaN. *)
Lemma max_element_from_sound (l : list double) :
  forall prefix largest best,
    nth_error (prefix ++ l) largest = Some best ->
    largest < length prefix ->
    (forall e, In e prefix -> SFltb best e = false) ->
    (forall j e, j < largest -> nth_error prefix j = Some e ->
                 SFleb best e = false) ->
    exists m,
      nth_error (prefix ++ l)
        (max_element_from largest best (length prefix) l) = Some m /\
      (forall e, In e (prefix ++ l) -> SFltb m e = false) /\
      (forall j e,
         j < max_element_from largest best (length prefix) l ->
         nth_error (prefix ++ l) j = Some e -> SFleb m e = false).
Proof.
  induction l as [|x l IH]; intros prefix largest best Hbest Hin Hno Hbefore;
    cbn [max_element_from].
  - exists best. rewrite app_nil_r in *. auto.
  - destruct (SFltb best x) eqn:Hlt.
    + specialize (IH (prefix ++ [x]) (length prefix) x).
      rewrite length_app, Nat.add_1_r, <- app_assoc in IH. apply IH.
      * rewrite nth_error_app2 by lia. rewrite Nat.sub_diag. reflexivity.
      * lia.
      * intros e He. apply in_app_or in He. destruct He as [He | [<- | []]].
        -- apply (SFltb_above _ _ _ Hlt), Hno, He.
        -- apply SFltb_irrefl.
      * intros j e Hj He. rewrite nth_error_app1 in He by exact Hj.
        apply (SFleb_above _ _ _ Hlt), Hno. apply (nth_error_In _ _ He).
    + specialize (IH (prefix ++ [x]) largest best).
      rewrite length_app, Nat.add_1_r, <- app_assoc in IH. apply IH.
      * exact Hbest.
      * lia.
      * intros e He. apply in_app_or in He. destruct He as [He | [<- | []]].
        -- apply Hno, He.
        -- exact Hlt.
      * intros j e Hj He. rewrite nth_error_app1 in He by lia.
        apply (Hbefore j e Hj He).
Qed.

Lemma max_element_sound (l : list double) (i : nat) :
  max_element l = Some i ->
  exists m,
    nth_error l i = Some m /\
    (forall e, In e l -> SFltb m e = false) /\
    (forall j e, j < i -> nth_error l j = Some e -> SFleb m e = false).
Proof.
  destruct l as [|x l]; [discriminate|]. cbn [max_element]. intros [= <-].
  apply (max_element_from_sound l [x] (largest := 0) (best := x)).
  - reflexivity.
  - cbn. lia.
  - intros e [<- | []]. apply SFltb_irrefl.
  - intros j e Hj. lia.
Qed.

Lemma app_eq_app_cons (A : Type) (l1 l2 : list A) (e : A) (rest : list A) :
  forall before,
    l1 ++ l2 = before ++ e :: rest ->
    (exists rest', l1 = before ++ e :: rest' /\ rest = rest' ++ l2) \/
    (exists before', before = l1 ++ before' /\ l2 = before' ++ e :: rest).
Proof.
  induction l1 as [|x l1 IH]; intros before H.
  - right. exists before. auto.
  - destruct before as [|y before]; cbn [app] in H; injection H as -> H.
    + left. exists l1. auto.
    + destruct (IH before H) as [(rest' & -> & ->) | (before' & -> & ->)].
      * left. exists rest'. auto.
      * right. exists before'. auto.
Qed.

(** An event of a kind that a piece of code never produces is not in its
    trace. *)
Lemma only_excludes (P : event -> bool) (A : Type) (m : M A) (env : Env)
    (t : nat) (before rest : list event) (e : event) :
  only (fun e => negb (P e)) m ->
  events (m env t) = before ++ e :: rest -> P e = true -> False.
Proof.
  intros Hm Hev He. specialize (Hm env t).
  rewrite Hev, forallb_app in Hm. apply andb_prop in Hm.
  destruct Hm as [_ Hm]. cbn [forallb] in Hm. rewrite He in Hm.
  discriminate Hm.
Qed.

Lemma received_elevations_app (a b : list event) :
  received_elevations (a ++ b) = received_elevations a ++ received_elevations b.
Proof.
  induction a as [|e a IH]; [reflexivity|].
  destruct e; cbn [app received_elevations]; rewrite IH; reflexivity.
Qed.

Lemma received_elevations_none (evs : list event) :
  forallb (fun e => negb (response_received e)) evs = true ->
  received_elevations evs = [].
Proof.
  induction evs as [|e evs IH]; [reflexivity|].
  cbn [forallb]. intros H. apply andb_prop in H. destruct H as [He H].
  destruct e; try discriminate He; cbn [received_elevations]; apply IH, H.
Qed.

Lemma wait_for_response_receives_nothing (fuel : nat) :
  only (fun e => negb (response_received e)) (wait_for_response fuel).
Proof.
  induction fuel as [|fuel IH]; cbn [wait_for_response]; only_calls.
Qed.

Lemma wait_for_response_decides_nothing (fuel : nat) :
  only (fun e => negb (decision e)) (wait_for_response fuel).
Proof.
  induction fuel as [|fuel IH]; cbn [wait_for_response]; only_calls.
Qed.

Lemma wait_for_navigation_decides_nothing (fuel : nat) :
  only (fun e => negb (decision e)) (wait_for_navigation fuel).
Proof.
  induction fuel as [|fuel IH]; cbn [wait_for_navigation]; only_calls.
Qed.

Lemma SampleElevation_decides_nothing (fuel : nat) (position : Vector2d) :
  only (fun e => negb (decision e)) (SampleElevation fuel position).
Proof.
  pose proof (wait_for_response_decides_nothing fuel).
  unfold SampleElevation. only_calls.
Qed.

Lemma sample_ring_decides_nothing (fuel : nat) (positions : list Vector2d) :
  forall elevations,
    only (fun e => negb (decision e)) (sample_ring fuel positions elevations).
Proof.
  pose proof (SampleElevation_decides_nothing fuel).
  induction positions as [|position rest IH]; intros elevations;
    cbn [sample_ring]; only_calls.
Qed.

Lemma sample_surroundings_decides_nothing (cos sin : double -> double)
    (fuel : nat) :
  only (fun e => negb (decision e)) (sample_surroundings cos sin fuel).
Proof.
  pose proof (SampleElevation_decides_nothing fuel).
  pose proof (sample_ring_decides_nothing fuel).
  unfold sample_surroundings, sample_around, GetRobotPosition. only_calls.
Qed.

Lemma running_and_not_canceling_decides_nothing :
  only (fun e => negb (decision e)) running_and_not_canceling.
Proof. unfold running_and_not_canceling. only_calls. Qed.

(** The elevation a sample returns is the one received. *)
Lemma SampleElevation_received (env : Env) (fuel t : nat) (position : Vector2d)
    (e : double) :
  result (SampleElevation fuel position env t) = Val (Some e) ->
  received_elevations (events (SampleElevation fuel position env t)) = [e].
Proof.
  unfold SampleElevation. rewrite events_bind, result_bind.
  cbn [emit result clock events app received_elevations].
  rewrite events_bind, result_bind, received_elevations_app.
  rewrite (received_elevations_none
             (events (wait_for_response fuel env t)))
    by apply wait_for_response_receives_nothing.
  destruct (result (wait_for_response fuel env t)) as [[]| | |];
    try discriminate.
  rewrite events_bind, result_bind. cbn [ask result clock events].
  destruct (future_get env _) as [ok elev]. cbn [success elevation].
  destruct ok; cbn [negb].
  - cbn [ret result events]. intros [= <-]. reflexivity.
  - rewrite result_bind. cbn [emit ret result]. discriminate.
Qed.

(** The elevations the loop over the ring returns are those received, in
    order. *)
Lemma sample_ring_received (env : Env) (fuel : nat) (positions : list Vector2d) :
  forall elevations t sampled,
    result (sample_ring fuel positions elevations env t) = Val (Some sampled) ->
    sampled
    = elevations
      ++ received_elevations
           (events (sample_ring fuel positions elevations env t)).
Proof.
  induction positions as [|position rest IH]; intros elevations t sampled;
    cbn [sample_ring].
  - cbn [ret result events received_elevations]. intros [= <-].
    rewrite app_nil_r. reflexivity.
  - rewrite events_bind, result_bind, received_elevations_app.
    destruct (result (SampleElevation fuel position env t)) as [[e|]| | |] eqn:Hs;
      try discriminate.
    intros Hres. apply SampleElevation_received in Hs. rewrite Hs.
    apply IH in Hres. rewrite Hres at 1. rewrite <- app_assoc. reflexivity.
Qed.

Section Decision.

Variables cos sin : double -> double.

Lemma sample_around_received (env : Env) (fuel t : nat)
    (robot_position : Vector2d) (positions : list Vector2d) (c : double)
    (es : list double) :
  result (sample_around cos sin fuel robot_position env t)
    = Val (Some (positions, c, es)) ->
  received_elevations (events (sample_around cos sin fuel robot_position env t))
    = c :: es.
Proof.
  unfold sample_around. rewrite events_bind, result_bind, received_elevations_app.
  destruct (result (SampleElevation fuel robot_position env t))
    as [[c'|]| | |] eqn:Hs; try discriminate.
  apply SampleElevation_received in Hs. rewrite Hs.
  rewrite events_bind, result_bind, received_elevations_app.
  destruct (result (sample_ring _ _ _ _ _)) as [[es'|]| | |] eqn:Hring;
    try discriminate.
  cbn [ret result events received_elevations]. intros [= _ <- <-].
  apply sample_ring_received in Hring. rewrite app_nil_r, Hring.
  reflexivity.
Qed.

(** What follows the request to the navigator decides nothing more. *)
Lemma after_go_to_pose_decides_nothing (fuel : nat) (accepted : bool) :
  only (fun e => negb (decision e))
    (if negb accepted then emit GoalAbort ;; ret Return
     else
       finished <- wait_for_navigation fuel ;;
       if finished then
         ok <- ask navigator_succeeded NavigatorSucceeded ;;
         if negb ok then emit GoalAbort ;; ret Return
         else ret Continue
       else ret Return).
Proof.
  pose proof (wait_for_navigation_decides_nothing fuel).
  destruct accepted; cbn [negb]; only_calls.
Qed.

(** The decision of [decide_and_navigate]: it is made on the element that
    [std::max_element] returns, once, and before any other call but
    [now()]. *)
Lemma decide_and_navigate_decision (fuel : nat) (positions : list Vector2d)
    (c : double) (es : list double) (env : Env) (t : nat)
    (before rest : list event) (e : event) :
  events (decide_and_navigate fuel positions c es env t) = before ++ e :: rest ->
  decision e = true ->
  exists i m,
    max_element es = Some i /\ nth_error es i = Some m /\
    (e = GoalSucceed /\ before = [] /\ SFleb m c = true \/
     exists goal_position time accepted,
       e = GoToPose (pose_at time goal_position) accepted /\
       before = [Now time] /\ SFleb m c = false /\
       nth_error positions i = Some goal_position).
Proof.
  unfold decide_and_navigate.
  destruct (max_element es) as [i|];
    [|intros H; destruct before; discriminate H].
  destruct (nth_error es i) as [m|] eqn:Hm;
    [|intros H; destruct before; discriminate H].
  destruct (SFleb m c) eqn:Hle.
  - rewrite events_bind. cbn [emit ret result clock events app].
    intros H He. exists i, m. split; [reflexivity|]. split; [exact Hm|].
    left. destruct before as [|x before]; cbn [app] in H.
    + injection H as <- _. auto.
    + injection H as _ H. destruct before; discriminate H.
  - destruct (nth_error positions i) as [goal_position|] eqn:Hgoal;
      [|intros H; destruct before; discriminate H].
    rewrite events_bind. cbn [ask result clock events app].
    rewrite events_bind. cbn [ask result clock events app].
    intros H He. exists i, m. split; [reflexivity|]. split; [exact Hm|].
    right. destruct before as [|x before]; cbn [app] in H.
    { injection H as <- _. discriminate He. }
    injection H as <- H. destruct before as [|y before]; cbn [app] in H.
    { injection H as <- _.
      exists goal_position, (node_now env t), (navigator_go_to_pose env (S t)).
      auto. }
    injection H as _ H. exfalso.
    apply (@only_excludes decision _ _ _ _ _ _ _
             (after_go_to_pose_decides_nothing fuel _) H He).
Qed.

(** The decision of an iteration: it follows the lookup of the robot
    position and the nine samples, and is made on their elevations. *)
Lemma loop_body_decision (fuel : nat) (env : Env) (t : nat)
    (before rest : list event) (e : event) :
  events (loop_body cos sin fuel env t) = before ++ e :: rest ->
  decision e = true ->
  exists robot_position since c es i m,
    before = LookupTransform (Some robot_position) :: since /\
    forallb (fun e => negb (position_lookup e)) since = true /\
    received_elevations since = c :: es /\
    length es = 8 /\
    max_element es = Some i /\ nth_error es i = Some m /\
    (e = GoalSucceed /\ SFleb m c = true \/
     exists time accepted,
       e = GoToPose (pose_at time (ring_position cos sin robot_position i))
                    accepted /\
       SFleb m c = false).
Proof.
  unfold loop_body. rewrite events_bind. intros H He.
  apply app_eq_app_cons in H.
  destruct H as [(rest' & H & _) | (before' & -> & H)].
  { exfalso.
    apply (@only_excludes decision _ _ _ _ _ _ _
             (sample_surroundings_decides_nothing cos sin fuel) H He). }
  destruct (result (sample_surroundings cos sin fuel env t))
    as [[[[positions c] es]|]| | |] eqn:Hres;
    try (destruct before'; discriminate H).
  pose proof Hres as Hsampled. apply sample_surroundings_returns in Hsampled.
  destruct Hsampled as (robot_position & Hlookup & -> & Hlen).
  apply decide_and_navigate_decision in H; [|exact He].
  destruct H as (i & m & Hmax & Hm & Hcase).
  assert (Hsur : events (sample_surroundings cos sin fuel env t)
                 = LookupTransform (Some robot_position)
                   :: events (sample_around cos sin fuel robot_position env (S t))
                 /\ result (sample_around cos sin fuel robot_position env (S t))
                    = Val (Some (sample_positions cos sin robot_position, c, es))).
  { revert Hres. unfold sample_surroundings.
    rewrite events_bind, result_bind, (@GetRobotPosition_found env t _ Hlookup).
    cbn [result clock events app]. auto. }
  destruct Hsur as [Hev Hres'].
  assert (Hsince : forall extra,
             forallb (fun e => negb (position_lookup e)) extra = true ->
             received_elevations extra = [] ->
             forallb (fun e => negb (position_lookup e))
               (events (sample_around cos sin fuel robot_position env (S t))
                ++ extra) = true /\
             received_elevations
               (events (sample_around cos sin fuel robot_position env (S t))
                ++ extra) = c :: es).
  { intros extra Hno Hnone. split.
    - rewrite forallb_app, Hno, sample_around_looks_up_nothing. reflexivity.
    - rewrite received_elevations_app, Hnone, app_nil_r.
      apply sample_around_received in Hres'. exact Hres'. }
  exists robot_position,
    (events (sample_around cos sin fuel robot_position env (S t)) ++ before'),
    c, es, i, m.
  rewrite Hev. cbn [app].
  assert (Hi : i < 8).
  { rewrite <- Hlen. apply nth_error_Some. rewrite Hm. discriminate. }
  destruct Hcase as [(-> & -> & Hle) | (goal & time & accepted & -> & -> & Hle & Hgoal)].
  - destruct (Hsince [] eq_refl eq_refl) as [Hno Hrec].
    split; [reflexivity|]. split; [exact Hno|]. split; [exact Hrec|].
    split; [exact Hlen|]. split; [exact Hmax|]. split; [exact Hm|].
    left. auto.
  - destruct (Hsince [Now time] eq_refl eq_refl) as [Hno Hrec].
    split; [reflexivity|]. split; [exact Hno|]. split; [exact Hrec|].
    split; [exact Hlen|]. split; [exact Hmax|]. split; [exact Hm|].
    right. exists time, accepted. split; [|exact Hle].
    rewrite (@nth_error_sample_positions cos sin robot_position i Hi) in Hgoal.
    injection Hgoal as <-. reflexivity.
Qed.

(** A decision in a run of the search loop is the decision of one of its
    iterations. *)
Lemma search_loop_decision (env : Env) (fuel : nat) :
  forall t before rest e,
    events (search_loop cos sin fuel env t) = before ++ e :: rest ->
    decision e = true ->
    exists fuel' t' earlier this rest',
      before = earlier ++ this /\
      events (loop_body cos sin fuel' env t') = this ++ e :: rest'.
Proof.
  induction fuel as [|fuel IH]; intros t before rest e H He;
    cbn [search_loop] in H.
  - destruct before; discriminate H.
  - rewrite events_bind in H. apply app_eq_app_cons in H.
    destruct H as [(rest' & H & _) | (before' & -> & H)].
    { exfalso.
      apply (@only_excludes decision _ _ _ _ _ _ _
               running_and_not_canceling_decides_nothing H He). }
    destruct (result (running_and_not_canceling env t)) as [[]| | |];
      try (destruct before'; discriminate H).
    + rewrite events_bind in H. apply app_eq_app_cons in H.
      destruct H as [(rest' & H & _) | (before'' & -> & H)].
      { exists fuel, (clock (running_and_not_canceling env t)),
          (events (running_and_not_canceling env t)), before', rest'. auto. }
      destruct (result (loop_body cos sin fuel env _)) as [[]| | |];
        try (destruct before''; discriminate H).
      apply IH in H; [|exact He].
      destruct H as (fuel' & t' & earlier & this & rest' & -> & Hthis).
      exists fuel', t',
        (events (running_and_not_canceling env t)
         ++ events (loop_body cos sin fuel env
                      (clock (running_and_not_canceling env t)))
         ++ earlier), this, rest'.
      rewrite <- !app_assoc. auto.
    + cbn [emit events] in H. destruct before' as [|x before']; cbn [app] in H.
      * injection H as <- _. discriminate He.
      * injection H as _ H. destruct before'; discriminate H.
Qed.

(** A decision in a run of [execute] is the decision of an iteration of its
    search loop. *)
Lemma execute_decision (fuel : nat) (env : Env) (t : nat)
    (before rest : list event) (e : event) :
  events (execute cos sin fuel env t) = before ++ e :: rest ->
  decision e = true ->
  exists fuel' t' earlier this rest',
    before = earlier ++ this /\
    events (loop_body cos sin fuel' env t') = this ++ e :: rest'.
Proof.
  unfold execute. intros H He.
  rewrite events_bind in H. cbn [ask result clock events app] in H.
  destruct before as [|x1 before]; cbn [app] in H;
    [injection H as <- _; discriminate He|]. injection H as _ H.
  destruct (elevation_service_is_ready env t); cbn [negb] in H.
  2: { cbn [emit events] in H. destruct before as [|x before]; cbn [app] in H.
       - injection H as <- _. discriminate He.
       - injection H as _ H. destruct before; discriminate H. }
  rewrite events_bind in H. cbn [ask result clock events app] in H.
  destruct before as [|x2 before]; cbn [app] in H;
    [injection H as <- _; discriminate He|]. injection H as _ H.
  destruct (tf_canTransform env (S t)); cbn [negb] in H.
  2: { cbn [emit events] in H. destruct before as [|x before]; cbn [app] in H.
       - injection H as <- _. discriminate He.
       - injection H as _ H. destruct before; discriminate H. }
  rewrite events_bind in H. cbn [ask result clock events app] in H.
  destruct before as [|x3 before]; cbn [app] in H;
    [injection H as <- _; discriminate He|]. injection H as _ H.
  destruct (navigator_server_available env (S (S t))); cbn [negb] in H.
  2: { cbn [emit events] in H. destruct before as [|x before]; cbn [app] in H.
       - injection H as <- _. discriminate He.
       - injection H as _ H. destruct before; discriminate H. }
  assert (Hloop : exists before' rest',
             before = before' /\
             events (search_loop cos sin fuel env (S (S (S t))))
             = before' ++ e :: rest').
  { unfold try_catch in H.
    destruct (result (search_loop cos sin fuel env (S (S (S t)))));
      cbn [events] in H; eauto.
    apply app_eq_app_cons in H.
    destruct H as [(rest' & H & _) | (before' & -> & H)]; [eauto|].
    exfalso. cbn [emit events] in H.
    destruct before' as [|x before']; cbn [app] in H.
    - injection H as <- _. discriminate He.
    - injection H as _ H. destruct before'; discriminate H. }
  destruct Hloop as (before' & rest' & -> & Hloop).
  apply search_loop_decision in Hloop; [|exact He].
  destruct Hloop as (fuel' & t' & earlier & this & rest'' & -> & Hthis).
  exists fuel', t', (x1 :: x2 :: x3 :: earlier), this, rest''. auto.
Qed.

End Decision.

Lemma since_lookup_quiet (evs : list event) :
  forallb (fun e => negb (position_lookup e)) evs = true ->
  forall acc found,
    fold_left
      (fun acc e => match e with LookupTransform _ => [] | _ => acc ++ [e] end)
      evs acc = acc ++ evs /\
    fold_left
      (fun found e =>
         match e with LookupTransform found' => found' | _ => found end)
      evs found = found.
Proof.
  induction evs as [|e evs IH]; intros H acc found.
  - rewrite app_nil_r. auto.
  - cbn [forallb] in H. apply andb_prop in H. destruct H as [He H].
    destruct e; try discriminate He; cbn [fold_left];
      match goal with
      | |- fold_left _ _ ?acc' = _ /\ _ =>
          destruct (IH H acc' found) as [-> ->]
      end; rewrite <- app_assoc; auto.
Qed.

(** After a lookup and events that are no lookup, these events are the
    iteration in progress, and the lookup is the last one. *)
Lemma since_lookup_after (earlier since : list event)
    (found : option Vector2d) :
  forallb (fun e => negb (position_lookup e)) since = true ->
  since_lookup (earlier ++ LookupTransform found :: since) = since /\
  last_lookup (earlier ++ LookupTransform found :: since) = found.
Proof.
  intros H. unfold since_lookup, last_lookup.
  rewrite !fold_left_app. cbn [fold_left].
  destruct (since_lookup_quiet _ H [] found) as [-> ->]. auto.
Qed.

(** X12.  Succeeded is only reported at a local maximum of what was sampled: when
    a run of [execute] reports Succeeded, the iteration in progress has
    received nine elevations, that of the robot position and those of the
    eight ring positions; the elevation of the robot position is a number
    (not a NaN), and no ring elevation exceeds it. *)
Theorem succeeded_at_local_maximum (cos sin : double -> double)
    (fuel : nat) (env : Env) (t : nat) (before rest : list event) :
  events (execute cos sin fuel env t) = before ++ GoalSucceed :: rest ->
  exists c es,
    received_elevations (since_lookup before) = c :: es /\
    length es = 8 /\
    SFleb c c = true /\
    forall e, In e es -> SFltb c e = false.
Proof.
  intros Hev.
  apply execute_decision in Hev; [|reflexivity].
  destruct Hev as (fuel' & t' & earlier & this & rest' & -> & Hthis).
  apply loop_body_decision in Hthis; [|reflexivity].
  destruct Hthis
    as (robot_position & since & c & es & i & m & -> & Hno & Hrec & Hlen
        & Hmax & Hm & Hcase).
  destruct (@since_lookup_after earlier since (Some robot_position) Hno)
    as [Hsince _].
  rewrite Hsince. exists c, es. split; [exact Hrec|]. split; [exact Hlen|].
  destruct Hcase as [[_ Hle] | (time & accepted & Habs & _)];
    [|discriminate Habs].
  apply max_element_sound in Hmax. destruct Hmax as (m' & Hm' & Hnone & _).
  rewrite Hm in Hm'. injection Hm' as <-.
  split; [apply (SFleb_number _ _ Hle)|].
  intros e He. apply (SFltb_below _ _ _ Hle), Hnone, He.
Qed.

Lemma succeeded_at_local_maximum_scenario :
  exists c es,
    received_elevations
      (since_lookup
         (firstn 67 (events (execute libm_cos libm_sin 5 one_climb 0))))
    = c :: es /\
    length es = 8 /\
    SFleb c c = true /\
    forall e, In e es -> SFltb c e = false.
Proof.
  apply (@succeeded_at_local_maximum libm_cos libm_sin 5 one_climb 0 _ []).
  vm_compute. reflexivity.
Defined.

(** X13.  The navigator is only sent uphill, to the highest neighbour: when a run
    of [execute] sends a goal pose to the navigator, the iteration in
    progress has received the elevation [c] of the robot position and the
    eight ring elevations [es]; the pose is at the [i]-th ring position
    around the robot position looked up in this iteration, where the [i]-th
    ring elevation [m] is not at most [c], no ring elevation exceeds [m],
    and every ring elevation before the [i]-th is less than [m] or a NaN. *)
Theorem navigation_goal_is_highest_neighbour (cos sin : double -> double)
    (fuel : nat) (env : Env) (t : nat) (before rest : list event)
    (goal_pose : PoseStamped) (accepted : bool) :
  events (execute cos sin fuel env t)
    = before ++ GoToPose goal_pose accepted :: rest ->
  exists robot_position c es i m time,
    last_lookup before = Some robot_position /\
    received_elevations (since_lookup before) = c :: es /\
    length es = 8 /\
    nth_error es i = Some m /\
    goal_pose = pose_at time (ring_position cos sin robot_position i) /\
    SFleb m c = false /\
    (forall e, In e es -> SFltb m e = false) /\
    (forall j e, j < i -> nth_error es j = Some e -> SFleb m e = false).
Proof.
  intros Hev.
  apply execute_decision in Hev; [|reflexivity].
  destruct Hev as (fuel' & t' & earlier & this & rest' & -> & Hthis).
  apply loop_body_decision in Hthis; [|reflexivity].
  destruct Hthis
    as (robot_position & since & c & es & i & m & -> & Hno & Hrec & Hlen
        & Hmax & Hm & Hcase).
  destruct (@since_lookup_after earlier since (Some robot_position) Hno)
    as [Hsince Hlast].
  rewrite Hsince, Hlast.
  destruct Hcase as [[Habs _] | (time & accepted' & Hpose & Hle)];
    [discriminate Habs|].
  injection Hpose as -> _.
  apply max_element_sound in Hmax.
  destruct Hmax as (m' & Hm' & Hnone & Hfirst).
  rewrite Hm in Hm'. injection Hm' as <-.
  exists robot_position, c, es, i, m, time. auto 10.
Qed.

Lemma navigation_goal_is_highest_neighbour_scenario :
  exists robot_position c es i m time,
    last_lookup (firstn 34 (events (execute libm_cos libm_sin 5 one_climb 0)))
    = Some robot_position /\
    received_elevations
      (since_lookup
         (firstn 34 (events (execute libm_cos libm_sin 5 one_climb 0))))
    = c :: es /\
    length es = 8 /\
    nth_error es i = Some m /\
    pose_at 0 (ring_position libm_cos libm_sin origin 0)
    = pose_at time (ring_position libm_cos libm_sin robot_position i) /\
    SFleb m c = false /\
    (forall e, In e es -> SFltb m e = false) /\
    (forall j e, j < i -> nth_error es j = Some e -> SFleb m e = false).
Proof.
  apply (@navigation_goal_is_highest_neighbour libm_cos libm_sin 5 one_climb 0
           _ (skipn 35 (events (execute libm_cos libm_sin 5 one_climb 0)))
           _ true).
  vm_compute. reflexivity.
Defined.

(** ** The ring of an iteration, on Scenario A *)

Lemma iteration_requests_ring_on_peak :
  sample_positions libm_cos libm_sin origin
    = map (ring_position libm_cos libm_sin origin) [0; 1; 2; 3; 4; 5; 6; 7] /\
  (exists n,
     requested_positions (events (loop_body libm_cos libm_sin 1 on_peak 0))
     = firstn n (origin :: sample_positions libm_cos libm_sin origin)) /\
  (forall positions c es,
     result (sample_surroundings libm_cos libm_sin 1 on_peak 0)
       = Val (Some (positions, c, es)) ->
     positions = sample_positions libm_cos libm_sin origin /\
     requested_positions (events (loop_body libm_cos libm_sin 1 on_peak 0))
     = origin :: positions).
Proof.
  apply (@iteration_requests_ring libm_cos libm_sin 1 on_peak 0 origin).
  reflexivity.
Defined.

(** ** A goal in a healthy environment *)

Section Answers.

Variables A B : Type.

Lemma answered_bind (m : M A) (k : A -> M B) :
  answered m -> (forall a, answered (k a)) -> answered (bind m k).
Proof.
  intros Hm Hk env t. rewrite events_bind. apply Forall_app.
  split; [apply Hm|].
  destruct (result (m env t)); [apply Hk|constructor..].
Qed.

Lemma answered_ask (answer : Env -> nat -> A) (call : A -> event) :
  (forall env t, answered_by env (call (answer env t))) ->
  answered (ask answer call).
Proof. intros H env t. cbn. constructor; [apply H|constructor]. Qed.

Lemma answered_ret (a : A) : answered (ret a).
Proof. intros env t. constructor. Qed.

Lemma answered_try_catch (m handler : M A) :
  answered m -> answered handler -> answered (try_catch m handler).
Proof.
  intros Hm Hh env t. unfold try_catch.
  destruct (result (m env t)); try apply Hm.
  cbn [events]. apply Forall_app. split; [apply Hm|apply Hh].
Qed.

End Answers.

Lemma answered_emit (e : event) :
  (forall env, answered_by env e) -> answered (emit e).
Proof. intros H env t. cbn. constructor; [apply H|constructor]. Qed.

(** Proves that the answers in the runs of a piece of code are the
    environment's, up to the loops and functions it calls. *)
Ltac answered_calls :=
  repeat first
  [ solve [eauto 1]
  | apply answered_ret
  | apply answered_emit; intros; exact I
  | apply answered_ask; intros; hnf; eexists; reflexivity
  | apply answered_bind; [|intros]
  | match goal with
    | |- answered (if ?b then _ else _) => destruct b
    | |- answered (match ?o with Some _ => _ | None => _ end) => destruct o
    end
  | (intros ? ?; constructor) ].

Lemma answered_wait_for_response (fuel : nat) :
  answered (wait_for_response fuel).
Proof.
  induction fuel as [|fuel IH]; cbn [wait_for_response];
    unfold shutdown_or_canceling; answered_calls.
Qed.

Lemma answered_wait_for_navigation (fuel : nat) :
  answered (wait_for_navigation fuel).
Proof.
  induction fuel as [|fuel IH]; cbn [wait_for_navigation];
    unfold shutdown_or_canceling; answered_calls.
Qed.

Lemma answered_SampleElevation (fuel : nat) (position : Vector2d) :
  answered (SampleElevation fuel position).
Proof.
  pose proof (answered_wait_for_response fuel).
  unfold SampleElevation. answered_calls.
Qed.

Lemma answered_sample_ring (fuel : nat) (positions : list Vector2d) :
  forall elevations, answered (sample_ring fuel positions elevations).
Proof.
  pose proof (answered_SampleElevation fuel).
  induction positions as [|position rest IH]; intros elevations;
    cbn [sample_ring]; answered_calls.
Qed.

Section AnsweredNode.

Variables cos sin : double -> double.

Lemma answered_sample_surroundings (fuel : nat) :
  answered (sample_surroundings cos sin fuel).
Proof.
  pose proof (answered_SampleElevation fuel).
  pose proof (answered_sample_ring fuel).
  unfold sample_surroundings, sample_around, GetRobotPosition. answered_calls.
Qed.

Lemma answered_decide_and_navigate (fuel : nat) (positions : list Vector2d)
    (current_elevation : double) (elevations : list double) :
  answered (decide_and_navigate fuel positions current_elevation elevations).
Proof.
  pose proof (answered_wait_for_navigation fuel).
  unfold decide_and_navigate. answered_calls.
Qed.

Lemma answered_loop_body (fuel : nat) : answered (loop_body cos sin fuel).
Proof.
  unfold loop_body. apply answered_bind.
  - apply answered_sample_surroundings.
  - intros [[[positions c] es]|].
    + apply answered_decide_and_navigate.
    + apply answered_ret.
Qed.

Lemma answered_search_loop (fuel : nat) : answered (search_loop cos sin fuel).
Proof.
  induction fuel as [|fuel IH]; cbn [search_loop].
  - intros env t. constructor.
  - apply answered_bind.
    + unfold running_and_not_canceling. answered_calls.
    + intros [|].
      * apply answered_bind; [apply answered_loop_body|].
        intros [|]; [exact IH|apply answered_ret].
      * apply answered_emit. intros; exact I.
Qed.

Lemma answered_execute (fuel : nat) : answered (execute cos sin fuel).
Proof.
  pose proof (answered_search_loop fuel).
  pose proof (@answered_try_catch unit (search_loop cos sin fuel)
                (emit GoalAbort) (answered_search_loop fuel)
                (answered_emit GoalAbort (fun _ => I))).
  unfold execute. answered_calls.
Qed.

End AnsweredNode.

(** A healthy environment gives no answer that is a failure or a stop. *)
Lemma healthy_answers (env : Env) (e : event) :
  healthy env -> answered_by env e ->
  abort_cause e = false /\ e <> RclcppOk false /\ e <> IsCanceling true.
Proof.
  intros (Hready & Hcan & Havailable & Hrunning & Hcanceling & Hlookup
          & Hsuccess & Haccepted & Hok) He.
  destruct e; cbn [answered_by abort_cause] in *;
    try match type of He with ex _ => destruct He as [t0 He] end;
    repeat split; try discriminate; try reflexivity.
  - rewrite <- He, Hready. reflexivity.
  - rewrite <- He, Hcan. reflexivity.
  - rewrite <- He, Havailable. reflexivity.
  - intros [= Habs]. rewrite <- He, Hrunning in Habs. discriminate Habs.
  - intros [= Habs]. rewrite <- He, Hcanceling in Habs. discriminate Habs.
  - destruct found; [reflexivity|]. exfalso. apply (Hlookup t0 He).
  - rewrite <- He, Hsuccess. reflexivity.
  - rewrite <- He, Haccepted. reflexivity.
  - rewrite <- He, Hok. reflexivity.
Qed.

(** The abort is due right after a failure. *)
Lemma run_before_abort (evs : list event) :
  run PStart evs = Some PMustAbort ->
  exists earlier cause, evs = earlier ++ [cause] /\ abort_cause cause = true.
Proof.
  intros Hrun.
  destruct (run_last evs Hrun) as (earlier & cause & q' & -> & _ & Hcause);
    [discriminate|].
  exists earlier, cause. split; [reflexivity|].
  destruct cause; step_cases Hcause; cbn [abort_cause negb]; try reflexivity.
  match goal with H : success _ = false |- _ => rewrite H end. reflexivity.
Qed.

(** X17.  In a healthy environment (the preconditions hold, the process
    keeps running, nobody cancels the goal, the robot position can be looked
    up, every sample succeeds, and the navigator accepts every goal and
    succeeds in every navigation it finishes), [execute] never gives up the
    goal: it calls neither [abort] nor [canceled] nor [navigator_.cancel()],
    and when it returns, it has reported Succeeded as its last call. *)
Theorem healthy_run_only_succeeds (cos sin : double -> double)
    (fuel : nat) (env : Env) (t : nat) :
  healthy env ->
  let o := execute cos sin fuel env t in
  forallb (fun e => negb (gives_up e)) (events o) = true /\
  (result o = Val tt -> exists before, events o = before ++ [GoalSucceed]).
Proof.
  intros Hhealthy. cbv zeta.
  destruct (execute_ends cos sin env fuel t) as (qf & Hrun & Hend).
  pose proof (answered_execute cos sin fuel env t) as Hanswered.
  rewrite Forall_forall in Hanswered.
  assert (Hnone : forallb (fun e => negb (gives_up e))
                    (events (execute cos sin fuel env t)) = true).
  { apply forallb_forall. intros e He.
    destruct (gives_up e) eqn:Hgives; [exfalso|reflexivity].
    destruct (in_split _ _ He) as (before & rest & Hev).
    assert (Hin : forall x, In x before ->
                    abort_cause x = false /\ x <> RclcppOk false
                    /\ x <> IsCanceling true).
    { intros x Hx. apply (@healthy_answers env x Hhealthy), Hanswered.
      rewrite Hev. apply in_or_app. left. exact Hx. }
    rewrite Hev in Hrun. apply run_app_inv in Hrun.
    destruct Hrun as (q1 & Hbefore & Hrun).
    apply run_cons_inv in Hrun. destruct Hrun as (q2 & Hstep & _).
    assert (Hstop : forall earlier observed later,
               before = earlier ++ observed ++ later ->
               stop_observed observed -> False).
    { intros earlier observed later -> [-> | ->].
      - destruct (Hin (RclcppOk false)) as (_ & Habs & _); [|congruence].
        apply in_or_app. right. left. reflexivity.
      - destruct (Hin (IsCanceling true)) as (_ & _ & Habs); [|congruence].
        apply in_or_app. right. right. left. reflexivity. }
    destruct e; try discriminate Hgives; step_cases Hstep.
    - destruct (run_before_nav_cancel _ Hbefore)
        as (earlier & observed & Heq & Hobs).
      apply (Hstop earlier observed []); [|exact Hobs].
      rewrite app_nil_r. exact Heq.
    - destruct (run_before_abort _ Hbefore) as (earlier & cause & -> & Hcause).
      destruct (Hin cause) as (Habs & _); [|congruence].
      apply in_or_app. right. left. reflexivity.
    - destruct (run_before_canceled _ Hbefore)
        as (earlier & observed & nav & Heq & Hobs & _).
      apply (Hstop earlier observed nav Heq Hobs). }
  split; [exact Hnone|]. intros Hres.
  destruct (run_terminal_last _ Hrun) as [Hdone _]; [discriminate|].
  destruct Hend as [[-> _] | [_ Hno]]; [|congruence].
  destruct (Hdone eq_refl) as (before & e & Hev & He & _).
  exists before. rewrite Hev in Hnone |- *.
  rewrite forallb_app in Hnone. apply andb_prop in Hnone.
  destruct Hnone as [_ Hnone]. cbn [forallb] in Hnone.
  destruct e; try discriminate He; try discriminate Hnone. reflexivity.
Qed.

Lemma healthy_run_only_succeeds_calm :
  let o := execute libm_cos libm_sin 5 calm 0 in
  forallb (fun e => negb (gives_up e)) (events o) = true /\
  (result o = Val tt -> exists before, events o = before ++ [GoalSucceed]).
Proof.
  apply (@healthy_run_only_succeeds libm_cos libm_sin 5 calm 0).
  repeat split; intros t; try reflexivity. discriminate.
Defined.

(** * The square and the grey squares: properties *)

Lemma drive_square_path :
  FinalMain.drive FinalMain.square_path FinalMain.known_moves
  = (concat
       (repeat
          [FinalMain.SetMotor FinalMain.A 100; FinalMain.SetMotor FinalMain.B 100;
           FinalMain.Wait 250;
           FinalMain.SetMotor FinalMain.A 100;
           FinalMain.SetMotor FinalMain.B (-100);
           FinalMain.Wait 250] 4),
     FinalMain.known_moves).
Proof. reflexivity. Qed.

Lemma move_forward :
  FinalMain.move "forward"%string FinalMain.known_moves
  = ([FinalMain.SetMotor FinalMain.A 100; FinalMain.SetMotor FinalMain.B 100;
      FinalMain.Wait 250],
     FinalMain.known_moves).
Proof. reflexivity. Qed.

Lemma keep_measuring_last (measurements : list Z) (value : Z) :
  FinalMain.keep_measuring (measurements ++ [value])
  = (FinalMain.black_threshold <? value)%Z.
Proof.
  unfold FinalMain.keep_measuring. rewrite last_last.
  destruct measurements; reflexivity.
Qed.

(** The measuring loop stops at the first black square. *)
Lemma measure_until_black (light : nat -> Z) (k : nat) :
  forall fuel taken measurements,
    FinalMain.keep_measuring measurements = true ->
    (forall j, j < k -> (FinalMain.black_threshold < light (taken + j)%nat)%Z) ->
    (light (taken + k)%nat <= FinalMain.black_threshold)%Z ->
    S k < fuel ->
    FinalMain.measure light fuel taken measurements FinalMain.known_moves
    = (flat_map
         (fun j =>
            [FinalMain.LightValue (light j);
             FinalMain.SetMotor FinalMain.A 100;
             FinalMain.SetMotor FinalMain.B 100; FinalMain.Wait 250])
         (seq taken (S k)),
       Some (measurements ++ map light (seq taken (S k)))).
Proof.
  induction k as [|k IH]; intros fuel taken measurements Hkeep Hwhite Hblack Hfuel;
    (destruct fuel as [|fuel]; [lia|]); cbn [FinalMain.measure];
    rewrite Hkeep, move_forward.
  - rewrite Nat.add_0_r in Hblack.
    destruct fuel as [|fuel]; [lia|]. cbn [FinalMain.measure].
    rewrite keep_measuring_last.
    replace (FinalMain.black_threshold <? light taken)%Z with false
      by (symmetry; apply Z.ltb_ge; exact Hblack).
    cbn [seq flat_map map app]. reflexivity.
  - rewrite (IH fuel (S taken) (measurements ++ [light taken])).
    + cbn [seq flat_map map app]. rewrite <- app_assoc. reflexivity.
    + rewrite keep_measuring_last. apply Z.ltb_lt.
      specialize (Hwhite 0). rewrite Nat.add_0_r in Hwhite. apply Hwhite. lia.
    + intros j Hj. specialize (Hwhite (S j)).
      replace (S taken + j) with (taken + S j) by lia. apply Hwhite. lia.
    + replace (S taken + k) with (taken + S k) by lia. exact Hblack.
    + lia.
Qed.

(** Without a black square the measuring loop does not stop: every one of
    its [fuel] iterations measures and moves forward. *)
Lemma measure_without_black (light : nat -> Z) (fuel : nat) :
  (forall j, (FinalMain.black_threshold < light j)%Z) ->
  forall taken measurements,
    FinalMain.keep_measuring measurements = true ->
    FinalMain.measure light fuel taken measurements FinalMain.known_moves
    = (flat_map
         (fun j =>
            [FinalMain.LightValue (light j);
             FinalMain.SetMotor FinalMain.A 100;
             FinalMain.SetMotor FinalMain.B 100; FinalMain.Wait 250])
         (seq taken fuel),
       None).
Proof.
  intros Hwhite.
  induction fuel as [|fuel IH]; intros taken measurements Hkeep;
    cbn [FinalMain.measure]; [reflexivity|].
  rewrite Hkeep, move_forward.
  rewrite (IH (S taken) (measurements ++ [light taken])).
  - reflexivity.
  - rewrite keep_measuring_last. apply Z.ltb_lt, Hwhite.
Qed.

(** X15.  When the [n]-th square measured is the first black one (a light value of
    at most 10), [main] returns 0 after these calls (the fuel is the number
    of tests of the measuring loop, [n + 2] of which are made): the square (four times
    forward and left, 250 ms each); for each of the squares 0 to [n], the
    black one included, a measurement followed by a move forward of 250 ms;
    and the line printed, whose number is the number of squares before the
    black one with a light value below 40. *)
Theorem main_counts_grey_squares (light : nat -> Z) (n fuel : nat) :
  (forall j, j < n -> (FinalMain.black_threshold < light j)%Z) ->
  (light n <= FinalMain.black_threshold)%Z ->
  S n < fuel ->
  FinalMain.main light fuel
  = (concat
       (repeat
          [FinalMain.SetMotor FinalMain.A 100; FinalMain.SetMotor FinalMain.B 100;
           FinalMain.Wait 250;
           FinalMain.SetMotor FinalMain.A 100;
           FinalMain.SetMotor FinalMain.B (-100);
           FinalMain.Wait 250] 4)
     ++ flat_map
          (fun j =>
             [FinalMain.LightValue (light j);
              FinalMain.SetMotor FinalMain.A 100;
              FinalMain.SetMotor FinalMain.B 100; FinalMain.Wait 250])
          (seq 0 (S n))
     ++ [FinalMain.Cout
           (FinalMain.Number
              (Z.of_nat
                 (length
                    (filter (fun value => (value <? FinalMain.grey_threshold)%Z)
                       (map light (seq 0 n))))));
         FinalMain.Cout (FinalMain.Text " grey squares detected."%string);
         FinalMain.Cout FinalMain.Endl],
     FinalMain.Returns 0).
Proof.
  intros Hwhite Hblack Hfuel. unfold FinalMain.main.
  rewrite drive_square_path.
  rewrite (@measure_until_black light n fuel 0 [] eq_refl Hwhite Hblack Hfuel).
  cbn [app]. rewrite seq_S, map_app. cbn [Nat.add map].
  destruct (map light (seq 0 n) ++ [light n]) as [|value measurements] eqn:Hm.
  { destruct (map light (seq 0 n)); discriminate Hm. }
  rewrite <- Hm, removelast_last. reflexivity.
Qed.

Lemma main_counts_grey_squares_strip :
  FinalMain.main FinalMain.strip 6
  = (concat
       (repeat
          [FinalMain.SetMotor FinalMain.A 100; FinalMain.SetMotor FinalMain.B 100;
           FinalMain.Wait 250;
           FinalMain.SetMotor FinalMain.A 100;
           FinalMain.SetMotor FinalMain.B (-100);
           FinalMain.Wait 250] 4)
     ++ flat_map
          (fun j =>
             [FinalMain.LightValue (FinalMain.strip j);
              FinalMain.SetMotor FinalMain.A 100;
              FinalMain.SetMotor FinalMain.B 100; FinalMain.Wait 250])
          (seq 0 5)
     ++ [FinalMain.Cout
           (FinalMain.Number
              (Z.of_nat
                 (length
                    (filter (fun value => (value <? FinalMain.grey_threshold)%Z)
                       (map FinalMain.strip (seq 0 4))))));
         FinalMain.Cout (FinalMain.Text " grey squares detected."%string);
         FinalMain.Cout FinalMain.Endl],
     FinalMain.Returns 0).
Proof.
  apply (@main_counts_grey_squares FinalMain.strip 4 6).
  - intros j Hj. do 4 (destruct j as [|j]; [vm_compute; reflexivity|]). lia.
  - vm_compute. discriminate.
  - lia.
Defined.

(** X16.  Without a black square on the strip (every light value above 10),
    [main] never returns: for every number [fuel] of tests of the measuring
    loop, [main] has not returned after them, and its calls are the square
    followed by a measurement and a move forward of 250 ms for each of the
    squares 0 to [fuel - 1].  Nothing is printed. *)
Theorem main_needs_a_black_square (light : nat -> Z) (fuel : nat) :
  (forall j, (FinalMain.black_threshold < light j)%Z) ->
  FinalMain.main light fuel
  = (concat
       (repeat
          [FinalMain.SetMotor FinalMain.A 100; FinalMain.SetMotor FinalMain.B 100;
           FinalMain.Wait 250;
           FinalMain.SetMotor FinalMain.A 100;
           FinalMain.SetMotor FinalMain.B (-100);
           FinalMain.Wait 250] 4)
     ++ flat_map
          (fun j =>
             [FinalMain.LightValue (light j);
              FinalMain.SetMotor FinalMain.A 100;
              FinalMain.SetMotor FinalMain.B 100; FinalMain.Wait 250])
          (seq 0 fuel),
     FinalMain.NoFuel).
Proof.
  intros Hwhite. unfold FinalMain.main.
  rewrite drive_square_path.
  rewrite (@measure_without_black light fuel Hwhite 0 [] eq_refl).
  reflexivity.
Qed.

Lemma main_needs_a_black_square_white_strip :
  FinalMain.main FinalMain.white_strip 3
  = (concat
       (repeat
          [FinalMain.SetMotor FinalMain.A 100; FinalMain.SetMotor FinalMain.B 100;
           FinalMain.Wait 250;
           FinalMain.SetMotor FinalMain.A 100;
           FinalMain.SetMotor FinalMain.B (-100);
           FinalMain.Wait 250] 4)
     ++ flat_map
          (fun j =>
             [FinalMain.LightValue (FinalMain.white_strip j);
              FinalMain.SetMotor FinalMain.A 100;
              FinalMain.SetMotor FinalMain.B 100; FinalMain.Wait 250])
          (seq 0 3),
     FinalMain.NoFuel).
Proof.
  apply (@main_needs_a_black_square FinalMain.white_strip 3).
  intros j. reflexivity.
Defined.
